(** * Carbon SDK strategy utilities: a shallow embedding and its properties

    The embedded functions are those of the strategy utilities module:
    [normalizeRate], [normalizeInvertedRate], [encodeStrategy],
    [decodeStrategy], [parseStrategy], [buildStrategyObject], [createOrders],
    [addFee], [subtractFee] and [calculateOverlappingDistribution].

    Conventions of the embedding.
    - A decimal string is identified with the [Decimal] value it denotes;
      [toFixed] and [toString] print the reduced fraction, so two printed
      strings are equal exactly when their values are.
    - Human prices, budgets and percentages handed to the builder and the
      solver are finite numerals, hence of type [Q]; values that flow out of
      Decimal arithmetic are of type [Decimal] and may be NaN or infinite.
    - Zero carries no sign.
    - Token decimals and fee parts-per-million are integers ([Z]).
    - Logger calls have no effect on results and are left out. *)

From Stdlib Require Import ZArith QArith Qround Qabs Qpower Qreduction.
From Stdlib Require Import Lia Lqa String Bool.
From ExtLib Require Import Structures.Monad Structures.MonadExc.
From ExtLib Require Import Data.Monads.EitherMonad.
Import MonadNotation.

Local Open Scope monad_scope.
Local Open Scope Q_scope.

(** ** The decimal type *)

(** Modelled from the spec: the precision of [Decimal], configured in the
    numerics module.  Section 4.1 asks for exact add, sub, mul and div, so a
    finite value is an exact rational.  Besides finite numbers the decimal
    library has the two infinities and NaN, and its operations never throw
    on them. *)
Inductive Decimal : Type :=
| Fin (q : Q)
| Inf (negative : bool)
| NaN.

Module Dec.

Definition isneg (q : Q) : bool := (Qnum q <? 0)%Z.
Definition iszero (q : Q) : bool := Qeq_bool q 0.

Definition neg (x : Decimal) : Decimal :=
  match x with
  | Fin q => Fin (- q)
  | Inf s => Inf (negb s)
  | NaN => NaN
  end.

(** [x.plus(y)]: NaN when either is NaN or for opposite infinities. *)
Definition plus (x y : Decimal) : Decimal :=
  match x, y with
  | NaN, _ | _, NaN => NaN
  | Inf a, Inf b => if Bool.eqb a b then Inf a else NaN
  | Inf a, Fin _ => Inf a
  | Fin _, Inf b => Inf b
  | Fin p, Fin q => Fin (p + q)
  end.

(** [x.minus(y)]. *)
Definition minus (x y : Decimal) : Decimal := plus x (neg y).

(** [x.times(y)], also spelled [x.mul(y)]: zero times infinity is NaN. *)
Definition times (x y : Decimal) : Decimal :=
  match x, y with
  | NaN, _ | _, NaN => NaN
  | Inf a, Inf b => Inf (xorb a b)
  | Inf a, Fin q => if iszero q then NaN else Inf (xorb a (isneg q))
  | Fin p, Inf b => if iszero p then NaN else Inf (xorb (isneg p) b)
  | Fin p, Fin q => Fin (p * q)
  end.

Definition mul := times.

(** [x.div(y)]: NaN for 0/0 and for infinity over infinity, an infinity for
    a nonzero number over zero, zero for a finite number over infinity.
    Nothing is thrown. *)
Definition div (x y : Decimal) : Decimal :=
  match x, y with
  | NaN, _ | _, NaN => NaN
  | Inf _, Inf _ => NaN
  | Inf a, Fin q => Inf (xorb a (isneg q))
  | Fin _, Inf _ => Fin 0
  | Fin p, Fin q =>
      if iszero q then (if iszero p then NaN else Inf (isneg p))
      else Fin (p / q)
  end.

(** [x.sqrt()], over a square root [Qsqrt] of the non-negative rationals:
    NaN for a negative argument, zero and plus infinity are fixed. *)
Definition sqrt (Qsqrt : Q -> Q) (x : Decimal) : Decimal :=
  match x with
  | NaN => NaN
  | Inf s => if s then NaN else Inf false
  | Fin q => if iszero q then Fin q
             else if isneg q then NaN else Fin (Qsqrt q)
  end.

Definition ceil (x : Decimal) : Decimal :=
  match x with Fin q => Fin (inject_Z (Qceiling q)) | _ => x end.

Definition floor (x : Decimal) : Decimal :=
  match x with Fin q => Fin (inject_Z (Qfloor q)) | _ => x end.

Definition isNegative (x : Decimal) : bool :=
  match x with Fin q => isneg q | Inf s => s | NaN => false end.

(** [x.gt(y)]: false as soon as a NaN is involved. *)
Definition gt (x y : Decimal) : bool :=
  match x, y with
  | NaN, _ | _, NaN => false
  | Fin p, Fin q => negb (Qle_bool p q)
  | Inf a, Inf b => negb a && b
  | Inf a, Fin _ => negb a
  | Fin _, Inf b => b
  end.

(** Printing: the canonical numeral of the value. *)
Definition toFixed (x : Decimal) : Decimal :=
  match x with Fin q => Fin (Qred q) | _ => x end.

Definition toString (x : Decimal) : Decimal := toFixed x.

(** [+s === 0] for the string [s] of a decimal: the string is converted to
    an IEEE double, rounding to nearest with ties to even, so every value
    of magnitude at most [2^-1075] (half the least positive double) reads
    as zero.  NaN and the infinities do not. *)
Definition numberIsZero (x : Decimal) : bool :=
  match x with
  | Fin q => Qle_bool (Qabs q) (2 ^ (-1075))
  | _ => false
  end.

(** Order on decimals as numbers; NaN is not comparable. *)
Definition le (x y : Decimal) : Prop :=
  match x, y with
  | Fin p, Fin q => p <= q
  | Inf a, Inf b => Bool.le b a
  | Inf a, Fin _ => a = true
  | Fin _, Inf b => b = false
  | _, _ => False
  end.

Definition finite (x : Decimal) : Prop :=
  match x with Fin _ => True | _ => False end.

End Dec.

(** ** Numerics helpers *)

(** Truncation of a rational toward zero. *)
Definition Qtruncate (x : Q) : Z :=
  if Dec.isneg x then Qceiling x else Qfloor x.

(** The value [x] cut to [d] fractional digits, toward zero. *)
Definition truncate_to (d : Z) (x : Q) : Q :=
  inject_Z (Qtruncate (x * 10 ^ d)) / 10 ^ d.

(** Modelled from the spec: [tenPow] of the numerics module, the scale
    factor [10^(dec0 - dec1)] of section 4.2. *)
Definition tenPow (dec0 dec1 : Z) : Decimal := Fin (10 ^ (dec0 - dec1)).

(** Modelled from the spec: [trimDecimal] of the numerics module, which
    "truncates a decimal string to at most [decimals] fractional digits
    without rounding up" (section 4.1).  The input is a numeral in plain
    positional notation; the strings of NaN and of the infinities have no
    fractional digits and are left as they are. *)
Definition trimDecimal (input : Decimal) (precision : Z) : Decimal :=
  match input with
  | Fin q => Fin (Qred (truncate_to precision q))
  | _ => input
  end.

(** Modelled from the spec: [parseUnits] of the numerics module, the
    conversion [x * 10^decimals] to integer base units of section 4.1, with
    the truncation policy of a deliverable amount. *)
Definition parseUnits (amount : Q) (decimals : Z) : Z :=
  Qtruncate (amount * 10 ^ decimals).

(** Modelled from the spec: [formatUnits] of the numerics module, the exact
    conversion [x / 10^decimals] from base units of section 4.1. *)
Definition formatUnits (amount : Z) (decimals : Z) : Decimal :=
  Fin (Qred (inject_Z amount / 10 ^ decimals)).

(** A square root with [p] fractional digits, rounded up, used to run the
    solver on concrete inputs. *)
Definition sqrt_digits (p : Z) (x : Q) : Q :=
  inject_Z (Z.sqrt_up (Qceiling (x * 10 ^ (2 * p)))) / 10 ^ p.

(** ** Data model *)

Record DecodedOrder : Type := mkDecodedOrder {
  liquidity : Z;
  lowestRate : Decimal;
  highestRate : Decimal;
  marginalRate : Decimal
}.

(** The pair returned by [createOrders]. *)
Module Orders.
Record t : Type := mk { order0 : DecodedOrder; order1 : DecodedOrder }.
End Orders.

Module DecodedStrategy.
Record t : Type := mk {
  token0 : string;
  token1 : string;
  order0 : DecodedOrder;
  order1 : DecodedOrder
}.
End DecodedStrategy.

(** Encoded strategies, over the order type of the external codec. *)
Module EncodedStrategy.
Record t (EncodedOrder : Type) : Type := mk {
  id : Z;
  token0 : string;
  token1 : string;
  order0 : EncodedOrder;
  order1 : EncodedOrder
}.
Arguments mk {EncodedOrder}.
Arguments id {EncodedOrder}.
Arguments token0 {EncodedOrder}.
Arguments token1 {EncodedOrder}.
Arguments order0 {EncodedOrder}.
Arguments order1 {EncodedOrder}.

(** [Omit<EncodedStrategy, 'id'>], the result of [encodeStrategy]. *)
Record noId (EncodedOrder : Type) : Type := mkNoId {
  nToken0 : string;
  nToken1 : string;
  nOrder0 : EncodedOrder;
  nOrder1 : EncodedOrder
}.
Arguments mkNoId {EncodedOrder}.
Arguments nToken0 {EncodedOrder}.
Arguments nToken1 {EncodedOrder}.
Arguments nOrder0 {EncodedOrder}.
Arguments nOrder1 {EncodedOrder}.

(** The strategy as stored once the chain has given it an id. *)
Definition stored {EncodedOrder : Type} (i : Z) (s : noId EncodedOrder)
  : t EncodedOrder :=
  mk i (nToken0 s) (nToken1 s) (nOrder0 s) (nOrder1 s).
End EncodedStrategy.

(** [DecodedStrategy & { id; encoded }], the result of [decodeStrategy]. *)
Module IdentifiedStrategy.
Record t (EncodedOrder : Type) : Type := mk {
  id : Z;
  token0 : string;
  token1 : string;
  order0 : DecodedOrder;
  order1 : DecodedOrder;
  encoded : EncodedStrategy.t EncodedOrder
}.
Arguments mk {EncodedOrder}.
Arguments id {EncodedOrder}.
Arguments token0 {EncodedOrder}.
Arguments token1 {EncodedOrder}.
Arguments order0 {EncodedOrder}.
Arguments order1 {EncodedOrder}.
Arguments encoded {EncodedOrder}.
End IdentifiedStrategy.

(** The human view, over the printed form of the encoded strategy. *)
Module Strategy.
Record t (EncodedStr : Type) : Type := mk {
  id : Z;
  baseToken : string;
  quoteToken : string;
  buyPriceLow : Decimal;
  buyPriceMarginal : Decimal;
  buyPriceHigh : Decimal;
  buyBudget : Decimal;
  sellPriceLow : Decimal;
  sellPriceMarginal : Decimal;
  sellPriceHigh : Decimal;
  sellBudget : Decimal;
  encoded : EncodedStr
}.
Arguments mk {EncodedStr}.
Arguments id {EncodedStr}.
Arguments baseToken {EncodedStr}.
Arguments quoteToken {EncodedStr}.
Arguments buyPriceLow {EncodedStr}.
Arguments buyPriceMarginal {EncodedStr}.
Arguments buyPriceHigh {EncodedStr}.
Arguments buyBudget {EncodedStr}.
Arguments sellPriceLow {EncodedStr}.
Arguments sellPriceMarginal {EncodedStr}.
Arguments sellPriceHigh {EncodedStr}.
Arguments sellBudget {EncodedStr}.
Arguments encoded {EncodedStr}.
End Strategy.

Module OverlappingDistributionResult.
Record t : Type := mk {
  buyPriceHigh : Decimal;
  buyPriceMarginal : Decimal;
  sellPriceLow : Decimal;
  sellPriceMarginal : Decimal;
  sellBudget : Decimal
}.
End OverlappingDistributionResult.

(** Thrown errors carry their message. *)
Abbreviation Throws A := (string + A)%type (only parsing).

Definition pricesCannotBeNegative : string :=
  "prices cannot be negative"%string.
Definition priceOrderViolated : string :=
  "low/marginal price must be lower than or equal to marginal/high price"%string.
Definition budgetsCannotBeNegative : string :=
  "budgets cannot be negative"%string.

(** ** Rate normalizer *)

Definition normalizeRate (amount : Decimal)
    (amountTokenDecimals otherTokenDecimals : Z) : Decimal :=
  Dec.toFixed
    (Dec.times amount (tenPow amountTokenDecimals otherTokenDecimals)).

Definition normalizeInvertedRate (amount : Decimal)
    (amountTokenDecimals otherTokenDecimals : Z) : Decimal :=
  if Dec.numberIsZero amount then Fin 0
  else
    Dec.toFixed
      (Dec.times (Dec.div (Fin 1) amount)
                 (tenPow otherTokenDecimals amountTokenDecimals)).

(** ** Strategy codec adapter *)

Section Adapter.

Context {EncodedOrder EncodedStr : Type}.
Variable encodeOrder : DecodedOrder -> EncodedOrder.
Variable decodeOrder : EncodedOrder -> DecodedOrder.
Variable encodedStrategyBNToStr : EncodedStrategy.t EncodedOrder -> EncodedStr.
(** The decimals resolver; a failed lookup throws. *)
Variable fetchDecimals : string -> Throws Z.

Definition encodeStrategy (strategy : DecodedStrategy.t)
  : EncodedStrategy.noId EncodedOrder :=
  EncodedStrategy.mkNoId
    (DecodedStrategy.token0 strategy)
    (DecodedStrategy.token1 strategy)
    (encodeOrder (DecodedStrategy.order0 strategy))
    (encodeOrder (DecodedStrategy.order1 strategy)).

Definition decodeStrategy (strategy : EncodedStrategy.t EncodedOrder)
  : IdentifiedStrategy.t EncodedOrder :=
  IdentifiedStrategy.mk
    (EncodedStrategy.id strategy)
    (EncodedStrategy.token0 strategy)
    (EncodedStrategy.token1 strategy)
    (decodeOrder (EncodedStrategy.order0 strategy))
    (decodeOrder (EncodedStrategy.order1 strategy))
    strategy.

Definition parseStrategy (strategy : IdentifiedStrategy.t EncodedOrder)
  : Throws (Strategy.t EncodedStr) :=
  let id := IdentifiedStrategy.id strategy in
  let token0 := IdentifiedStrategy.token0 strategy in
  let token1 := IdentifiedStrategy.token1 strategy in
  let order0 := IdentifiedStrategy.order0 strategy in
  let order1 := IdentifiedStrategy.order1 strategy in
  let encoded := IdentifiedStrategy.encoded strategy in
  decimals0 <- fetchDecimals token0 ;;
  decimals1 <- fetchDecimals token1 ;;
  let buyPriceLow := normalizeRate (lowestRate order1) decimals0 decimals1 in
  let buyPriceMarginal :=
    normalizeRate (marginalRate order1) decimals0 decimals1 in
  let buyPriceHigh := normalizeRate (highestRate order1) decimals0 decimals1 in
  let sellPriceLow :=
    normalizeInvertedRate (highestRate order0) decimals1 decimals0 in
  let sellPriceMarginal :=
    normalizeInvertedRate (marginalRate order0) decimals1 decimals0 in
  let sellPriceHigh :=
    normalizeInvertedRate (lowestRate order0) decimals1 decimals0 in
  let sellBudget := formatUnits (liquidity order0) decimals0 in
  let buyBudget := formatUnits (liquidity order1) decimals1 in
  let strId := id in
  let strEncoded := encodedStrategyBNToStr encoded in
  ret (Strategy.mk strId token0 token1
         buyPriceLow buyPriceMarginal buyPriceHigh buyBudget
         sellPriceLow sellPriceMarginal sellPriceHigh sellBudget
         strEncoded).

End Adapter.

(** ** Order builder *)

Definition createOrders (baseTokenDecimals quoteTokenDecimals : Z)
    (buyPriceLow buyPriceMarginal buyPriceHigh buyBudget : Q)
    (sellPriceLow sellPriceMarginal sellPriceHigh sellBudget : Q)
  : Orders.t :=
  (* order 0 is selling the base token *)
  let liquidity0 := parseUnits sellBudget baseTokenDecimals in
  let lowestRate0 :=
    normalizeInvertedRate (Fin sellPriceHigh)
      quoteTokenDecimals baseTokenDecimals in
  let marginalRate0 :=
    normalizeInvertedRate (Fin sellPriceMarginal)
      quoteTokenDecimals baseTokenDecimals in
  let highestRate0 :=
    normalizeInvertedRate (Fin sellPriceLow)
      quoteTokenDecimals baseTokenDecimals in
  (* order 1 is selling the quote token *)
  let liquidity1 := parseUnits buyBudget quoteTokenDecimals in
  let lowestRate1 :=
    normalizeRate (Fin buyPriceLow) quoteTokenDecimals baseTokenDecimals in
  let marginalRate1 :=
    normalizeRate (Fin buyPriceMarginal) quoteTokenDecimals baseTokenDecimals in
  let highestRate1 :=
    normalizeRate (Fin buyPriceHigh) quoteTokenDecimals baseTokenDecimals in
  let order0 :=
    {| liquidity := liquidity0;
       lowestRate := lowestRate0;
       highestRate := highestRate0;
       marginalRate := marginalRate0 |} in
  let order1 :=
    {| liquidity := liquidity1;
       lowestRate := lowestRate1;
       highestRate := highestRate1;
       marginalRate := marginalRate1 |} in
  Orders.mk order0 order1.

Definition buildStrategyObject (baseToken quoteToken : string)
    (baseDecimals quoteDecimals : Z)
    (buyPriceLow buyPriceMarginal buyPriceHigh buyBudget : Q)
    (sellPriceLow sellPriceMarginal sellPriceHigh sellBudget : Q)
  : Throws DecodedStrategy.t :=
  if Dec.isNegative (Fin buyPriceLow)
     || Dec.isNegative (Fin buyPriceMarginal)
     || Dec.isNegative (Fin buyPriceHigh)
     || Dec.isNegative (Fin sellPriceLow)
     || Dec.isNegative (Fin sellPriceMarginal)
     || Dec.isNegative (Fin sellPriceHigh)
  then raise pricesCannotBeNegative
  else if Dec.gt (Fin buyPriceLow) (Fin buyPriceMarginal)
          || Dec.gt (Fin buyPriceLow) (Fin buyPriceHigh)
          || Dec.gt (Fin buyPriceMarginal) (Fin buyPriceHigh)
          || Dec.gt (Fin sellPriceLow) (Fin sellPriceMarginal)
          || Dec.gt (Fin sellPriceLow) (Fin sellPriceHigh)
          || Dec.gt (Fin sellPriceMarginal) (Fin sellPriceHigh)
  then raise priceOrderViolated
  else if Dec.isNegative (Fin buyBudget) || Dec.isNegative (Fin sellBudget)
  then raise budgetsCannotBeNegative
  else
    let o :=
      createOrders baseDecimals quoteDecimals
        buyPriceLow buyPriceMarginal buyPriceHigh buyBudget
        sellPriceLow sellPriceMarginal sellPriceHigh sellBudget in
    ret (DecodedStrategy.mk baseToken quoteToken
           (Orders.order0 o) (Orders.order1 o)).

(** ** Fee calculator *)

Definition PPM_RESOLUTION : Z := 1000000.

Definition addFee (amount : Decimal) (tradingFeePPM : Z) : Decimal :=
  Dec.ceil
    (Dec.div (Dec.mul amount (Fin (inject_Z PPM_RESOLUTION)))
             (Fin (inject_Z (PPM_RESOLUTION - tradingFeePPM)))).

Definition subtractFee (amount : Decimal) (tradingFeePPM : Z) : Decimal :=
  Dec.floor
    (Dec.div (Dec.mul amount (Fin (inject_Z (PPM_RESOLUTION - tradingFeePPM))))
             (Fin (inject_Z PPM_RESOLUTION))).

(** ** Overlapping distribution solver *)

Section Solver.

(** The square root of the decimal library on non-negative numbers. *)
Variable Qsqrt : Q -> Q.

(** The body throws nowhere: every call returns its record. *)
Definition calculateOverlappingDistribution
    (baseTokenDecimals quoteTokenDecimals : Z)
    (buyPriceLow sellPriceHigh marketPrice spreadPercentage buyBudget : Q)
  : Throws OverlappingDistributionResult.t :=
  let sellPriceHighDec := Fin sellPriceHigh in
  let buyPriceLowDec := Fin buyPriceLow in
  let marketPriceDec := Fin marketPrice in
  let totalPriceRange := Dec.minus sellPriceHighDec buyPriceLowDec in
  let spread :=
    Dec.div (Dec.mul totalPriceRange (Fin spreadPercentage)) (Fin 100) in
  let buyPriceHigh := Dec.minus sellPriceHighDec spread in
  let sellPriceLow := Dec.plus buyPriceLowDec spread in
  let buyPriceRange := Dec.minus buyPriceHigh buyPriceLowDec in
  let sellPriceRange := Dec.minus sellPriceHighDec sellPriceLow in
  let buyLowRange :=
    Dec.minus (Dec.minus marketPriceDec buyPriceLowDec)
              (Dec.div spread (Fin 2)) in
  let buyLowBudgetRatio := Dec.div buyLowRange buyPriceRange in
  let buyOrderYint := Dec.div (Fin buyBudget) buyLowBudgetRatio in
  let buyPriceMarginal :=
    Dec.plus buyPriceLowDec (Dec.mul buyPriceRange buyLowBudgetRatio) in
  let geoMean := Dec.sqrt Qsqrt (Dec.mul buyPriceLowDec sellPriceHighDec) in
  let sellOrderYint := Dec.div buyOrderYint geoMean in
  let sellHighBudgetRatio := Dec.minus (Fin 1) buyLowBudgetRatio in
  let sellBudget := Dec.mul sellOrderYint sellHighBudgetRatio in
  let sellPriceMarginal :=
    Dec.minus sellPriceHighDec
              (Dec.mul sellPriceRange sellHighBudgetRatio) in
  ret (OverlappingDistributionResult.mk
         (trimDecimal (Dec.toString buyPriceHigh) quoteTokenDecimals)
         (trimDecimal (Dec.toString buyPriceMarginal) quoteTokenDecimals)
         (trimDecimal (Dec.toString sellPriceLow) quoteTokenDecimals)
         (trimDecimal (Dec.toString sellPriceMarginal) quoteTokenDecimals)
         (trimDecimal (Dec.toString sellBudget) baseTokenDecimals)).

End Solver.

(** ** The reference algorithm of the solver, in the words of section 4.4 *)

Module Reference.

Section Steps.
Variable Qsqrt : Q -> Q.
Variables buyPriceLow sellPriceHigh marketPrice spreadPercentage buyBudget : Q.

Definition totalRange := sellPriceHigh - buyPriceLow.
Definition spread := totalRange * spreadPercentage / 100.
Definition buyPriceHigh := sellPriceHigh - spread.
Definition sellPriceLow := buyPriceLow + spread.
Definition buyLowRange := marketPrice - buyPriceLow - spread / 2.
Definition buyLowBudgetRatio := buyLowRange / (buyPriceHigh - buyPriceLow).
Definition buyOrderYint := buyBudget / buyLowBudgetRatio.
Definition buyPriceMarginal :=
  buyPriceLow + (buyPriceHigh - buyPriceLow) * buyLowBudgetRatio.
Definition geoMean := Qsqrt (buyPriceLow * sellPriceHigh).
Definition sellOrderYint := buyOrderYint / geoMean.
Definition sellHighBudgetRatio := 1 - buyLowBudgetRatio.
Definition sellBudget := sellOrderYint * sellHighBudgetRatio.
Definition sellPriceMarginal :=
  sellPriceHigh - (sellPriceHigh - sellPriceLow) * sellHighBudgetRatio.
End Steps.

End Reference.

(** ** Specification predicates *)

(** The three violations checked by the order builder, as conditions on the
    numbers handed in. *)
Section Violations.
Variables buyPriceLow buyPriceMarginal buyPriceHigh buyBudget : Q.
Variables sellPriceLow sellPriceMarginal sellPriceHigh sellBudget : Q.

Definition somePriceNegative : Prop :=
  buyPriceLow < 0 \/ buyPriceMarginal < 0 \/ buyPriceHigh < 0 \/
  sellPriceLow < 0 \/ sellPriceMarginal < 0 \/ sellPriceHigh < 0.

Definition someSideMisordered : Prop :=
  buyPriceMarginal < buyPriceLow \/ buyPriceHigh < buyPriceLow \/
  buyPriceHigh < buyPriceMarginal \/
  sellPriceMarginal < sellPriceLow \/ sellPriceHigh < sellPriceLow \/
  sellPriceHigh < sellPriceMarginal.

Definition someBudgetNegative : Prop := buyBudget < 0 \/ sellBudget < 0.
End Violations.

(** The rate invariant of a decoded order. *)
Definition ratesOrdered (o : DecodedOrder) : Prop :=
  Dec.le (lowestRate o) (marginalRate o) /\
  Dec.le (marginalRate o) (highestRate o).

(** A sell price survives the inversion when the zero test of
    [normalizeInvertedRate] reads neither the price nor its rate as zero. *)
Definition survivesInversion (baseDecimals quoteDecimals : Z) (price : Q)
  : Prop :=
  Dec.numberIsZero (Fin price) = false /\
  Dec.numberIsZero
    (Fin (1 / price * 10 ^ (baseDecimals - quoteDecimals))) = false.

(** An identity codec and a two-token resolver, to run the adapter. *)
Definition identityCodec (o : DecodedOrder) : DecodedOrder := o.

Definition twoTokenDecimals (baseToken : string)
    (baseDecimals quoteDecimals : Z) (token : string) : string + Z :=
  if String.eqb token baseToken then inr baseDecimals else inr quoteDecimals.

(** A decoded strategy that carries its id and encoded form is in
    particular a decoded strategy: the value [decodeStrategy] returns can be
    handed to [encodeStrategy]. *)
Definition asDecodedStrategy {EncodedOrder : Type}
    (s : IdentifiedStrategy.t EncodedOrder) : DecodedStrategy.t :=
  DecodedStrategy.mk
    (IdentifiedStrategy.token0 s) (IdentifiedStrategy.token1 s)
    (IdentifiedStrategy.order0 s) (IdentifiedStrategy.order1 s).

(** A decoded strategy whose liquidities and rates are finite numbers. *)
Definition strategyOfRates {EncodedOrder : Type} (id : Z)
    (token0 token1 : string)
    (liquidity0 : Z) (lowest0 marginal0 highest0 : Q)
    (liquidity1 : Z) (lowest1 marginal1 highest1 : Q)
    (encoded : EncodedStrategy.t EncodedOrder)
  : IdentifiedStrategy.t EncodedOrder :=
  IdentifiedStrategy.mk id token0 token1
    {| liquidity := liquidity0;
       lowestRate := Fin lowest0;
       highestRate := Fin highest0;
       marginalRate := Fin marginal0 |}
    {| liquidity := liquidity1;
       lowestRate := Fin lowest1;
       highestRate := Fin highest1;
       marginalRate := Fin marginal1 |}
    encoded.

(** * Properties *)

(** ** Facts on the helpers *)

Lemma isneg_true (q : Q) : Dec.isneg q = true <-> q < 0.
Proof.
  unfold Dec.isneg, Qlt. simpl. rewrite Z.ltb_lt. lia.
Qed.

Lemma isneg_false (q : Q) : Dec.isneg q = false <-> 0 <= q.
Proof.
  unfold Dec.isneg, Qle. simpl. rewrite Z.ltb_ge. lia.
Qed.

Lemma iszero_true (q : Q) : Dec.iszero q = true <-> q == 0.
Proof. apply Qeq_bool_iff. Qed.

Lemma iszero_false (q : Q) : Dec.iszero q = false <-> ~ q == 0.
Proof.
  unfold Dec.iszero. split.
  - apply Qeq_bool_neq.
  - intros H. destruct (Qeq_bool q 0) eqn:E; [|reflexivity].
    apply Qeq_bool_iff in E. contradiction.
Qed.

Lemma pow10_pos (z : Z) : 0 < 10 ^ z.
Proof. apply Qpower_0_lt. reflexivity. Qed.

Lemma pow10_nonzero (z : Z) : ~ 10 ^ z == 0.
Proof. pose proof (pow10_pos z). lra. Qed.

Lemma inject_Z_pos (z : Z) : (0 < z)%Z -> 0 < inject_Z z.
Proof. intros H. unfold Qlt. simpl. lia. Qed.

Lemma inject_Z_le_iff (a b : Z) : inject_Z a <= inject_Z b <-> (a <= b)%Z.
Proof. unfold Qle. simpl. lia. Qed.

Lemma ceiling_bounds (x : Q) :
  inject_Z (Qceiling x) - 1 < x /\ x <= inject_Z (Qceiling x).
Proof.
  split; [|apply Qle_ceiling].
  pose proof (Qceiling_lt x) as H. unfold Z.sub in H.
  rewrite inject_Z_plus, inject_Z_opp in H. exact H.
Qed.

Lemma floor_bounds (x : Q) :
  inject_Z (Qfloor x) <= x /\ x < inject_Z (Qfloor x) + 1.
Proof.
  split; [apply Qfloor_le|].
  pose proof (Qlt_floor x) as H.
  rewrite inject_Z_plus in H. exact H.
Qed.

(** An integer below a number is below its floor, an integer above it is
    above its ceiling. *)
Lemma floor_greatest (z : Z) (x : Q) : inject_Z z <= x -> (z <= Qfloor x)%Z.
Proof.
  intros H. rewrite <- (Qfloor_Z z). apply Qfloor_resp_le. exact H.
Qed.

Lemma ceiling_least (z : Z) (x : Q) : x <= inject_Z z -> (Qceiling x <= z)%Z.
Proof.
  intros H. rewrite <- (Qceiling_Z z). apply Qceiling_resp_le. exact H.
Qed.

(** ** Fee calculator *)

Lemma ppm_divisor_nonzero (f : Z) :
  (f < PPM_RESOLUTION)%Z ->
  Dec.iszero (inject_Z (PPM_RESOLUTION - f)) = false.
Proof.
  intros H. apply iszero_false.
  assert (0 < inject_Z (PPM_RESOLUTION - f)) by (apply inject_Z_pos; lia).
  lra.
Qed.

Lemma addFee_value (x : Q) (f : Z) :
  (f < PPM_RESOLUTION)%Z ->
  addFee (Fin x) f =
  Fin (inject_Z (Qceiling (x * inject_Z PPM_RESOLUTION
                           / inject_Z (PPM_RESOLUTION - f)))).
Proof.
  intros H. unfold addFee. cbn [Dec.mul Dec.times Dec.div].
  rewrite (ppm_divisor_nonzero f H). reflexivity.
Qed.

Lemma subtractFee_value (x : Q) (f : Z) :
  subtractFee (Fin x) f =
  Fin (inject_Z (Qfloor (x * inject_Z (PPM_RESOLUTION - f)
                         / inject_Z PPM_RESOLUTION))).
Proof. reflexivity. Qed.

(** C7. With a fee below the resolution, [addFee] is the ceiling of
    [amount * PPM / (PPM - fee)], the least integer not below that quotient,
    and [subtractFee] is the floor of [amount * (PPM - fee) / PPM], the
    greatest integer not above it; [addFee(1000, 2000)] is 1003. *)
Theorem fee_rounding_directions (x : Q) (f : Z)
    (Hfee : (f < PPM_RESOLUTION)%Z) :
  let gross := x * inject_Z PPM_RESOLUTION / inject_Z (PPM_RESOLUTION - f) in
  let net := x * inject_Z (PPM_RESOLUTION - f) / inject_Z PPM_RESOLUTION in
  addFee (Fin x) f = Fin (inject_Z (Qceiling gross)) /\
  subtractFee (Fin x) f = Fin (inject_Z (Qfloor net)) /\
  (inject_Z (Qceiling gross) - 1 < gross <= inject_Z (Qceiling gross)) /\
  (inject_Z (Qfloor net) <= net < inject_Z (Qfloor net) + 1) /\
  addFee (Fin 1000) 2000 = Fin 1003.
Proof.
  intros gross net. repeat split.
  - apply addFee_value; exact Hfee.
  - apply ceiling_bounds.
  - apply ceiling_bounds.
  - apply floor_bounds.
  - apply floor_bounds.
Qed.

Lemma fee_rounding_directions_witness :
  (2000 < PPM_RESOLUTION)%Z /\
  addFee (Fin 1000) 2000 = Fin 1003 /\
  subtractFee (Fin 1000) 2000 = Fin 998.
Proof.
  assert (H : (2000 < PPM_RESOLUTION)%Z) by reflexivity.
  split; [exact H|].
  destruct (fee_rounding_directions 1000 2000 H) as (Ha & Hs & _).
  split; [rewrite Ha | rewrite Hs]; reflexivity.
Defined.

(** C8. For an integer amount and a fee below the resolution, netting a
    grossed-up amount gives at least the amount, and grossing up a netted
    amount gives at most the amount. *)
Theorem fee_compositions_bias (x f : Z) (Hfee : (f < PPM_RESOLUTION)%Z) :
  Dec.le (Fin (inject_Z x)) (subtractFee (addFee (Fin (inject_Z x)) f) f) /\
  Dec.le (addFee (subtractFee (Fin (inject_Z x)) f) f) (Fin (inject_Z x)).
Proof.
  assert (Hd : 0 < inject_Z (PPM_RESOLUTION - f)) by (apply inject_Z_pos; lia).
  assert (Hp : 0 < inject_Z PPM_RESOLUTION) by reflexivity.
  split.
  - rewrite (addFee_value _ f Hfee), subtractFee_value. cbn [Dec.le].
    apply inject_Z_le_iff, floor_greatest.
    set (a := inject_Z (Qceiling _)).
    assert (Ha : inject_Z x * inject_Z PPM_RESOLUTION
                 / inject_Z (PPM_RESOLUTION - f) <= a)
      by apply Qle_ceiling.
    apply Qle_shift_div_l; [exact Hp|].
    apply (Qmult_le_compat_r _ _ (inject_Z (PPM_RESOLUTION - f))) in Ha;
      [|lra].
    eapply Qle_trans; [|exact Ha]. apply Qle_lteq. right. field. lra.
  - rewrite subtractFee_value, (addFee_value _ f Hfee). cbn [Dec.le].
    apply inject_Z_le_iff, ceiling_least.
    set (s := inject_Z (Qfloor _)).
    assert (Hs : s <= inject_Z x * inject_Z (PPM_RESOLUTION - f)
                      / inject_Z PPM_RESOLUTION)
      by apply Qfloor_le.
    apply Qle_shift_div_r; [exact Hd|].
    apply (Qmult_le_compat_r _ _ (inject_Z PPM_RESOLUTION)) in Hs; [|lra].
    eapply Qle_trans; [exact Hs|]. apply Qle_lteq. right. field. lra.
Qed.

Lemma fee_compositions_bias_witness :
  (2000 < PPM_RESOLUTION)%Z /\
  Dec.le (Fin 1000) (subtractFee (addFee (Fin 1000) 2000) 2000) /\
  Dec.le (addFee (subtractFee (Fin 1000) 2000) 2000) (Fin 1000).
Proof.
  assert (H : (2000 < PPM_RESOLUTION)%Z) by reflexivity.
  split; [exact H|]. exact (fee_compositions_bias 1000 2000 H).
Defined.

(** ** Rate normalizer *)

Lemma numberIsZero_true (x : Q) :
  Dec.numberIsZero (Fin x) = true <-> Qabs x <= 2 ^ (-1075).
Proof. apply Qle_bool_iff. Qed.

Lemma numberIsZero_false (x : Q) :
  Dec.numberIsZero (Fin x) = false <-> 2 ^ (-1075) < Qabs x.
Proof.
  split.
  - intros H. apply Qnot_le_lt. intros Hle.
    apply numberIsZero_true in Hle. congruence.
  - intros H. destruct (Dec.numberIsZero (Fin x)) eqn:E; [|reflexivity].
    apply numberIsZero_true in E. apply Qlt_not_le in H. contradiction.
Qed.

Lemma numberIsZero_zero (x : Q) : x == 0 -> Dec.numberIsZero (Fin x) = true.
Proof.
  intros H. apply numberIsZero_true. rewrite H.
  apply Qpower_0_le. discriminate.
Qed.

Lemma numberIsZero_false_nonzero (x : Q) :
  Dec.numberIsZero (Fin x) = false -> ~ x == 0.
Proof.
  intros H Hx. rewrite (numberIsZero_zero x Hx) in H. discriminate.
Qed.

Lemma numberIsZero_compat (x y : Q) :
  x == y -> Dec.numberIsZero (Fin x) = Dec.numberIsZero (Fin y).
Proof.
  intros H. unfold Dec.numberIsZero. rewrite H. reflexivity.
Qed.

(** A positive price reads as a nonzero number once it exceeds [2^-1075]. *)
Lemma numberIsZero_false_pos (x : Q) :
  2 ^ (-1075) < x -> Dec.numberIsZero (Fin x) = false.
Proof.
  intros H. apply numberIsZero_false.
  assert (0 < 2 ^ (-1075)) by (apply Qpower_0_lt; reflexivity).
  rewrite Qabs_pos; lra.
Qed.

Lemma normalizeRate_value (x : Q) (d0 d1 : Z) :
  normalizeRate (Fin x) d0 d1 = Fin (Qred (x * 10 ^ (d0 - d1))).
Proof. reflexivity. Qed.

Lemma normalizeInvertedRate_zero (x : Q) (d0 d1 : Z) :
  Dec.numberIsZero (Fin x) = true ->
  normalizeInvertedRate (Fin x) d0 d1 = Fin 0.
Proof. intros H. unfold normalizeInvertedRate. rewrite H. reflexivity. Qed.

Lemma normalizeInvertedRate_value (x : Q) (d0 d1 : Z) :
  Dec.numberIsZero (Fin x) = false ->
  normalizeInvertedRate (Fin x) d0 d1 = Fin (Qred (1 / x * 10 ^ (d1 - d0))).
Proof.
  intros H. unfold normalizeInvertedRate. rewrite H.
  cbn [Dec.div Dec.times Dec.toFixed tenPow].
  apply numberIsZero_false_nonzero, iszero_false in H. rewrite H.
  reflexivity.
Qed.

(** The parts of the normalizer contract that hold for every amount: the
    direct rate is [x * 10^(d0 - d1)], zero inverts to zero, and an amount
    that reads as a nonzero number inverts to [normalizeRate (1/x) d1 d0]. *)
Lemma normalizer_contract (x : Q) (d0 d1 : Z) :
  normalizeRate (Fin x) d0 d1 = Fin (Qred (x * 10 ^ (d0 - d1))) /\
  normalizeInvertedRate (Fin 0) d0 d1 = Fin 0 /\
  (Dec.numberIsZero (Fin x) = false ->
   normalizeInvertedRate (Fin x) d0 d1 = normalizeRate (Fin (1 / x)) d1 d0).
Proof.
  split; [reflexivity|]. split.
  - apply normalizeInvertedRate_zero, numberIsZero_zero. reflexivity.
  - intros H. rewrite (normalizeInvertedRate_value _ _ _ H). reflexivity.
Qed.

Lemma normalizeRate_compat (x y : Q) (d0 d1 : Z) :
  x == y -> normalizeRate (Fin x) d0 d1 = normalizeRate (Fin y) d0 d1.
Proof.
  intros H. rewrite !normalizeRate_value. f_equal.
  apply Qred_complete. rewrite H. reflexivity.
Qed.

Lemma normalizeInvertedRate_compat (x y : Q) (d0 d1 : Z) :
  x == y ->
  normalizeInvertedRate (Fin x) d0 d1 = normalizeInvertedRate (Fin y) d0 d1.
Proof.
  intros H. destruct (Dec.numberIsZero (Fin x)) eqn:E.
  - rewrite (normalizeInvertedRate_zero x), (normalizeInvertedRate_zero y);
      [reflexivity| |exact E].
    rewrite <- (numberIsZero_compat x y H). exact E.
  - rewrite (normalizeInvertedRate_value x), (normalizeInvertedRate_value y);
      [| |exact E].
    + f_equal. apply Qred_complete. rewrite H. reflexivity.
    + rewrite <- (numberIsZero_compat x y H). exact E.
Qed.

(** C9, at an amount below the range of doubles.  The amount [10^-400] is
    not zero, yet its inverted rate is the string of zero and not
    [(1/x) * 10^(d1 - d0)]. *)
Theorem normalizeInvertedRate_tiny_amount :
  let x := 1 # (10 ^ 400) in
  ~ x == 0 /\
  normalizeInvertedRate (Fin x) 6 18 = Fin 0 /\
  normalizeRate (Fin (1 / x)) 18 6 <> Fin 0.
Proof.
  intros x. split; [discriminate|]. split.
  - vm_compute. reflexivity.
  - vm_compute. discriminate.
Qed.

(** ** Truncation *)

Lemma isneg_compat (x y : Q) : x == y -> Dec.isneg x = Dec.isneg y.
Proof.
  intros H. destruct (Dec.isneg y) eqn:E.
  - apply isneg_true. apply isneg_true in E. lra.
  - apply isneg_false. apply isneg_false in E. lra.
Qed.

Lemma Qtruncate_compat (x y : Q) : x == y -> Qtruncate x = Qtruncate y.
Proof.
  intros H. unfold Qtruncate. rewrite (isneg_compat x y H).
  destruct (Dec.isneg y); rewrite H; reflexivity.
Qed.

Lemma Qtruncate_nonneg (x : Q) : 0 <= x -> Qtruncate x = Qfloor x.
Proof.
  intros H. unfold Qtruncate. apply isneg_false in H. rewrite H. reflexivity.
Qed.

Lemma Qtruncate_Z (z : Z) : Qtruncate (inject_Z z) = z.
Proof.
  unfold Qtruncate. destruct (Dec.isneg (inject_Z z));
    [apply Qceiling_Z | apply Qfloor_Z].
Qed.

Lemma parseUnits_compat (x y : Q) (d : Z) :
  x == y -> parseUnits x d = parseUnits y d.
Proof.
  intros H. unfold parseUnits. apply Qtruncate_compat. rewrite H. reflexivity.
Qed.

(** For a non-negative budget the base-unit amount is the budget scaled by
    [10^decimals], with the fraction of a base unit dropped. *)
Lemma parseUnits_bounds (x : Q) (d : Z) :
  0 <= x ->
  inject_Z (parseUnits x d) <= x * 10 ^ d /\
  x * 10 ^ d < inject_Z (parseUnits x d) + 1.
Proof.
  intros H. unfold parseUnits. rewrite Qtruncate_nonneg.
  - apply floor_bounds.
  - apply Qmult_le_0_compat; [exact H|]. apply Qlt_le_weak, pow10_pos.
Qed.

(** ** Order builder: [createOrders] *)

(** C6. For non-negative budgets, [createOrders] puts in [order0] the sell
    budget in base units of the base token and the inverted-normalized sell
    prices, high to lowest, marginal to marginal, low to highest; in [order1]
    the buy budget in base units of the quote token and the normalized buy
    prices in place.  With 18 and 6 decimals, budgets 1000 and 0.5 and the
    example prices the liquidities are 1000000000 and 500000000000000000. *)
Theorem createOrders_fields (b q : Z) (bpl bpm bph bb spl spm sph sb : Q)
    (Hbb : 0 <= bb) (Hsb : 0 <= sb) :
  let o := createOrders b q bpl bpm bph bb spl spm sph sb in
  (liquidity (Orders.order0 o) = parseUnits sb b /\
   inject_Z (liquidity (Orders.order0 o)) <= sb * 10 ^ b
     < inject_Z (liquidity (Orders.order0 o)) + 1 /\
   lowestRate (Orders.order0 o) = normalizeInvertedRate (Fin sph) q b /\
   marginalRate (Orders.order0 o) = normalizeInvertedRate (Fin spm) q b /\
   highestRate (Orders.order0 o) = normalizeInvertedRate (Fin spl) q b) /\
  (liquidity (Orders.order1 o) = parseUnits bb q /\
   inject_Z (liquidity (Orders.order1 o)) <= bb * 10 ^ q
     < inject_Z (liquidity (Orders.order1 o)) + 1 /\
   lowestRate (Orders.order1 o) = normalizeRate (Fin bpl) q b /\
   marginalRate (Orders.order1 o) = normalizeRate (Fin bpm) q b /\
   highestRate (Orders.order1 o) = normalizeRate (Fin bph) q b) /\
  (forall bm sm : Q,
     let e := createOrders 18 6 1800 bm 2000 1000 2000 sm 2200 (1 # 2) in
     liquidity (Orders.order1 e) = 1000000000%Z /\
     liquidity (Orders.order0 e) = 500000000000000000%Z).
Proof.
  intros o. split; [|split].
  - split; [reflexivity|]. split; [apply parseUnits_bounds; exact Hsb|].
    repeat split.
  - split; [reflexivity|]. split; [apply parseUnits_bounds; exact Hbb|].
    repeat split.
  - intros bm sm. split; vm_compute; reflexivity.
Qed.

Lemma createOrders_fields_witness :
  0 <= 1000 /\ 0 <= 1 # 2 /\
  let o := createOrders 18 6 1800 1900 2000 1000 2000 2100 2200 (1 # 2) in
  liquidity (Orders.order0 o) = 500000000000000000%Z /\
  lowestRate (Orders.order0 o) = Fin (5000000000 # 11) /\
  liquidity (Orders.order1 o) = 1000000000%Z /\
  lowestRate (Orders.order1 o) = Fin (9 # 5000000000).
Proof.
  assert (Hbb : 0 <= 1000) by discriminate.
  assert (Hsb : 0 <= 1 # 2) by discriminate.
  split; [exact Hbb|]. split; [exact Hsb|].
  destruct (createOrders_fields 18 6 1800 1900 2000 1000 2000 2100 2200 (1 # 2)
              Hbb Hsb) as ((L0 & _ & R0 & _) & (L1 & _ & R1 & _) & _).
  cbv zeta. rewrite L0, R0, L1, R1.
  repeat split; vm_compute; reflexivity.
Defined.

(** C10. The two orders are computed side by side: [order1] is determined by
    the buy-side arguments and the decimals, [order0] by the sell-side
    arguments and the decimals.  Arguments agree when they denote the same
    numbers. *)
Theorem createOrders_sides_independent (b q : Z)
    (bpl bpm bph bb spl spm sph sb : Q)
    (bpl' bpm' bph' bb' spl' spm' sph' sb' : Q) :
  (bpl == bpl' -> bpm == bpm' -> bph == bph' -> bb == bb' ->
   Orders.order1 (createOrders b q bpl bpm bph bb spl spm sph sb) =
   Orders.order1 (createOrders b q bpl' bpm' bph' bb' spl' spm' sph' sb')) /\
  (spl == spl' -> spm == spm' -> sph == sph' -> sb == sb' ->
   Orders.order0 (createOrders b q bpl bpm bph bb spl spm sph sb) =
   Orders.order0 (createOrders b q bpl' bpm' bph' bb' spl' spm' sph' sb')).
Proof.
  split; intros H1 H2 H3 H4; cbn [createOrders Orders.order0 Orders.order1].
  - rewrite (parseUnits_compat _ _ _ H4), (normalizeRate_compat _ _ _ _ H1),
      (normalizeRate_compat _ _ _ _ H2), (normalizeRate_compat _ _ _ _ H3).
    reflexivity.
  - rewrite (parseUnits_compat _ _ _ H4),
      (normalizeInvertedRate_compat _ _ _ _ H1),
      (normalizeInvertedRate_compat _ _ _ _ H2),
      (normalizeInvertedRate_compat _ _ _ _ H3).
    reflexivity.
Qed.

Lemma createOrders_sides_independent_witness :
  Orders.order1 (createOrders 18 6 1800 1900 2000 1000 2000 2100 2200 (1 # 2)) =
  Orders.order1 (createOrders 18 6 (3600 # 2) 1900 2000 1000 1 2 3 4) /\
  Orders.order0 (createOrders 18 6 1800 1900 2000 1000 2000 2100 2200 (1 # 2)) =
  Orders.order0 (createOrders 18 6 1 2 3 4 2000 2100 2200 (2 # 4)).
Proof.
  split.
  - apply (createOrders_sides_independent 18 6
             1800 1900 2000 1000 2000 2100 2200 (1 # 2)
             (3600 # 2) 1900 2000 1000 1 2 3 4); reflexivity.
  - apply (createOrders_sides_independent 18 6
             1800 1900 2000 1000 2000 2100 2200 (1 # 2)
             1 2 3 4 2000 2100 2200 (2 # 4)); reflexivity.
Defined.

(** ** Order builder: [buildStrategyObject] *)

Lemma gt_true (p q : Q) : Dec.gt (Fin p) (Fin q) = true <-> q < p.
Proof.
  cbn [Dec.gt]. rewrite negb_true_iff. split.
  - intros H. apply Qnot_le_lt. intros Hle.
    apply Qle_bool_iff in Hle. congruence.
  - intros H. destruct (Qle_bool p q) eqn:E; [|reflexivity].
    apply Qle_bool_iff in E. apply Qlt_not_le in H. contradiction.
Qed.

Lemma priceSignCheck_true (a b c d e f : Q) :
  Dec.isNegative (Fin a) || Dec.isNegative (Fin b) || Dec.isNegative (Fin c)
  || Dec.isNegative (Fin d) || Dec.isNegative (Fin e) || Dec.isNegative (Fin f)
  = true <->
  (a < 0 \/ b < 0 \/ c < 0 \/ d < 0 \/ e < 0 \/ f < 0).
Proof.
  cbn [Dec.isNegative]. rewrite !orb_true_iff, !isneg_true. tauto.
Qed.

Lemma priceOrderCheck_true (bl bm bh sl sm sh : Q) :
  Dec.gt (Fin bl) (Fin bm) || Dec.gt (Fin bl) (Fin bh)
  || Dec.gt (Fin bm) (Fin bh) || Dec.gt (Fin sl) (Fin sm)
  || Dec.gt (Fin sl) (Fin sh) || Dec.gt (Fin sm) (Fin sh) = true <->
  (bm < bl \/ bh < bl \/ bh < bm \/ sm < sl \/ sh < sl \/ sh < sm).
Proof. rewrite !orb_true_iff, !gt_true. tauto. Qed.

Lemma budgetSignCheck_true (bb sb : Q) :
  Dec.isNegative (Fin bb) || Dec.isNegative (Fin sb) = true <->
  (bb < 0 \/ sb < 0).
Proof. cbn [Dec.isNegative]. rewrite orb_true_iff, !isneg_true. tauto. Qed.

Lemma not_true_false (b : bool) (P : Prop) :
  (b = true <-> P) -> b = false -> ~ P.
Proof. intros H E HP. apply H in HP. congruence. Qed.

Lemma Qinv_le_contravar (a b : Q) : 0 < a -> a <= b -> / b <= / a.
Proof.
  intros Ha Hab. apply Qle_shift_inv_r; [lra|].
  apply Qle_trans with (/ a * a).
  - apply Qle_lteq. right. field. lra.
  - apply Qmult_le_l; [apply Qinv_lt_0_compat; exact Ha | exact Hab].
Qed.

(** Direct rates keep the order of the prices. *)
Lemma normalizeRate_monotone (x y : Q) (d0 d1 : Z) :
  x <= y -> Dec.le (normalizeRate (Fin x) d0 d1) (normalizeRate (Fin y) d0 d1).
Proof.
  intros H. rewrite !normalizeRate_value. cbn [Dec.le]. apply Qred_le.
  apply Qmult_le_compat_r; [exact H|]. apply Qlt_le_weak, pow10_pos.
Qed.

(** Inverted rates reverse the order of prices that read as nonzero. *)
Lemma normalizeInvertedRate_antitone (x y : Q) (d0 d1 : Z) :
  0 <= x -> Dec.numberIsZero (Fin x) = false -> x <= y ->
  Dec.le (normalizeInvertedRate (Fin y) d0 d1)
         (normalizeInvertedRate (Fin x) d0 d1).
Proof.
  intros H0 Hx Hxy.
  assert (Hpos : 0 < x).
  { apply numberIsZero_false_nonzero in Hx. lra. }
  assert (Hy : Dec.numberIsZero (Fin y) = false).
  { apply numberIsZero_false. apply numberIsZero_false in Hx.
    rewrite Qabs_pos in Hx by lra. rewrite Qabs_pos by lra. lra. }
  rewrite (normalizeInvertedRate_value _ _ _ Hx),
    (normalizeInvertedRate_value _ _ _ Hy).
  cbn [Dec.le]. apply Qred_le.
  apply Qmult_le_compat_r; [|apply Qlt_le_weak, pow10_pos].
  unfold Qdiv. rewrite !Qmult_1_l. apply Qinv_le_contravar; assumption.
Qed.

(** When the three checks pass the builder returns the strategy made of
    the two tokens and the orders of [createOrders]. *)
Lemma buildStrategyObject_succeeds (baseToken quoteToken : string)
    (b q : Z) (bpl bpm bph bb spl spm sph sb : Q) :
  ~ somePriceNegative bpl bpm bph spl spm sph ->
  ~ someSideMisordered bpl bpm bph spl spm sph ->
  ~ someBudgetNegative bb sb ->
  buildStrategyObject baseToken quoteToken b q
    bpl bpm bph bb spl spm sph sb =
  inr (DecodedStrategy.mk baseToken quoteToken
         (Orders.order0 (createOrders b q bpl bpm bph bb spl spm sph sb))
         (Orders.order1 (createOrders b q bpl bpm bph bb spl spm sph sb))).
Proof.
  intros NP NO NB. unfold buildStrategyObject.
  destruct (_ || _ || _ || _ || _ || Dec.isNegative (Fin sph)) eqn:EP.
  { exfalso. apply NP, priceSignCheck_true, EP. }
  destruct (_ || _ || _ || _ || _ || Dec.gt (Fin spm) (Fin sph)) eqn:EO.
  { exfalso. apply NO, priceOrderCheck_true, EO. }
  destruct (Dec.isNegative (Fin bb) || Dec.isNegative (Fin sb)) eqn:EB.
  { exfalso. apply NB, budgetSignCheck_true, EB. }
  reflexivity.
Qed.

(** C2, as stated, fails at a sell range that starts at zero: the three
    checks pass, the call succeeds, and in [order0] the marginal rate is
    above the highest rate. *)
Lemma buildStrategyObject_zero_sell_low_unordered :
  ~ somePriceNegative 1800 1900 2000 0 1 2 /\
  ~ someSideMisordered 1800 1900 2000 0 1 2 /\
  ~ someBudgetNegative 1000 (1 # 2) /\
  exists s,
    buildStrategyObject "base" "quote" 18 6
      1800 1900 2000 1000 0 1 2 (1 # 2) = inr s /\
    ~ ratesOrdered (DecodedStrategy.order0 s).
Proof.
  split; [|split; [|split]].
  - unfold somePriceNegative. intros H.
    repeat (destruct H as [H|H]; [discriminate H|]). discriminate H.
  - unfold someSideMisordered. intros H.
    repeat (destruct H as [H|H]; [discriminate H|]). discriminate H.
  - unfold someBudgetNegative. intros [H|H]; discriminate H.
  - eexists. split; [vm_compute; reflexivity|].
    intros [_ H]. vm_compute in H. apply H. reflexivity.
Qed.

(** C2, amended.  The call fails with the price error exactly when a price
    is negative; with the ordering error exactly when no price is negative
    and a side is out of order; with the budget error exactly when neither
    holds and a budget is negative; otherwise it succeeds, [order1] has
    ordered rates, and so has [order0] when the low sell price reads as a
    nonzero number.  A low sell price of zero gives the highest rate "0". *)
Theorem buildStrategyObject_validation (baseToken quoteToken : string)
    (b q : Z) (bpl bpm bph bb spl spm sph sb : Q) :
  let r := buildStrategyObject baseToken quoteToken b q
             bpl bpm bph bb spl spm sph sb in
  let P := somePriceNegative bpl bpm bph spl spm sph in
  let O := someSideMisordered bpl bpm bph spl spm sph in
  let B := someBudgetNegative bb sb in
  (r = inl pricesCannotBeNegative <-> P) /\
  (r = inl priceOrderViolated <-> ~ P /\ O) /\
  (r = inl budgetsCannotBeNegative <-> ~ P /\ ~ O /\ B) /\
  (~ P -> ~ O -> ~ B ->
   exists s, r = inr s /\
     DecodedStrategy.token0 s = baseToken /\
     DecodedStrategy.token1 s = quoteToken /\
     ratesOrdered (DecodedStrategy.order1 s) /\
     (Dec.numberIsZero (Fin spl) = false ->
      ratesOrdered (DecodedStrategy.order0 s)) /\
     (spl == 0 -> highestRate (DecodedStrategy.order0 s) = Fin 0)).
Proof.
  intros r P O B. subst r. unfold buildStrategyObject.
  pose proof (priceSignCheck_true bpl bpm bph spl spm sph) as HP.
  pose proof (priceOrderCheck_true bpl bpm bph spl spm sph) as HO.
  pose proof (budgetSignCheck_true bb sb) as HB.
  fold P in HP. fold O in HO. fold B in HB.
  change (@raise string _ _ DecodedStrategy.t) with (@inl string DecodedStrategy.t).
  change (@ret _ _ DecodedStrategy.t) with (@inr string DecodedStrategy.t).
  destruct (_ || _ || _ || _ || _ || Dec.isNegative (Fin sph)) eqn:EP.
  { assert (HP' : P) by (apply HP; reflexivity).
    split; [|split; [|split]].
    - split; [intros _; exact HP' | reflexivity].
    - split; [intros H; discriminate H | intros [H _]; contradiction].
    - split; [intros H; discriminate H | intros [H _]; contradiction].
    - intros H; contradiction. }
  pose proof (not_true_false _ _ HP eq_refl) as NP.
  destruct (_ || _ || _ || _ || _ || Dec.gt (Fin spm) (Fin sph)) eqn:EO.
  { assert (HO' : O) by (apply HO; reflexivity).
    split; [|split; [|split]].
    - split; [intros H; discriminate H | intros H; contradiction].
    - split; [intros _; split; assumption | reflexivity].
    - split; [intros H; discriminate H | intros (_ & H & _); contradiction].
    - intros _ H; contradiction. }
  pose proof (not_true_false _ _ HO eq_refl) as NO.
  destruct (Dec.isNegative (Fin bb) || Dec.isNegative (Fin sb)) eqn:EB.
  { assert (HB' : B) by (apply HB; reflexivity).
    split; [|split; [|split]].
    - split; [intros H; discriminate H | intros H; contradiction].
    - split; [intros H; discriminate H | intros [_ H]; contradiction].
    - split; [intros _; repeat split; assumption | reflexivity].
    - intros _ _ H; contradiction. }
  pose proof (not_true_false _ _ HB eq_refl) as NB.
  split; [|split; [|split]].
  - split; [intros H; discriminate H | intros; contradiction].
  - split; [intros H; discriminate H | intros; tauto].
  - split; [intros H; discriminate H | intros; tauto].
  - intros _ _ _. eexists. split; [reflexivity|].
    cbn [DecodedStrategy.token0 DecodedStrategy.token1
         DecodedStrategy.order0 DecodedStrategy.order1
         createOrders Orders.order0 Orders.order1].
    unfold P, somePriceNegative in NP. unfold O, someSideMisordered in NO.
    split; [reflexivity|]. split; [reflexivity|].
    split; [|split].
    + split; cbn [lowestRate marginalRate highestRate];
        apply normalizeRate_monotone; lra.
    + intros Hz.
      assert (Hm : Dec.numberIsZero (Fin spm) = false).
      { apply numberIsZero_false. apply numberIsZero_false in Hz.
        rewrite Qabs_pos in Hz by lra. rewrite Qabs_pos by lra. lra. }
      split; cbn [lowestRate marginalRate highestRate];
        apply normalizeInvertedRate_antitone; try assumption; lra.
    + intros Hz. cbn [highestRate].
      apply normalizeInvertedRate_zero, numberIsZero_zero. exact Hz.
Qed.

Lemma buildStrategyObject_validation_witness :
  exists s,
    buildStrategyObject "base" "quote" 18 6
      1800 1900 2000 1000 2000 2100 2200 (1 # 2) = inr s /\
    ratesOrdered (DecodedStrategy.order1 s) /\
    ratesOrdered (DecodedStrategy.order0 s).
Proof.
  destruct (buildStrategyObject_validation "base" "quote" 18 6
              1800 1900 2000 1000 2000 2100 2200 (1 # 2))
    as (_ & _ & _ & H).
  destruct H as (s & Hs & _ & _ & H1 & H0 & _).
  - unfold somePriceNegative. intros H.
    repeat (destruct H as [H|H]; [discriminate H|]). discriminate H.
  - unfold someSideMisordered. intros H.
    repeat (destruct H as [H|H]; [discriminate H|]). discriminate H.
  - unfold someBudgetNegative. intros [H|H]; discriminate H.
  - exists s. split; [exact Hs|]. split; [exact H1|].
    apply H0. vm_compute. reflexivity.
Defined.

(** ** Trimming to a number of fractional digits *)

Lemma truncate_to_compat (d : Z) (x y : Q) :
  x == y -> truncate_to d x = truncate_to d y.
Proof.
  intros H. unfold truncate_to.
  rewrite (Qtruncate_compat (x * 10 ^ d) (y * 10 ^ d)); [reflexivity|].
  rewrite H. reflexivity.
Qed.

(** Trimming a non-negative number never raises it and drops less than one
    unit of the last kept digit. *)
Lemma truncate_to_bounds (d : Z) (x : Q) :
  0 <= x ->
  0 <= truncate_to d x /\ truncate_to d x <= x /\
  x < truncate_to d x + / 10 ^ d.
Proof.
  intros H. pose proof (pow10_pos d) as HT.
  assert (Hs : 0 <= x * 10 ^ d) by (apply Qmult_le_0_compat; lra).
  unfold truncate_to. rewrite (Qtruncate_nonneg _ Hs).
  destruct (floor_bounds (x * 10 ^ d)) as [Hlo Hhi].
  assert (H0 : 0 <= inject_Z (Qfloor (x * 10 ^ d))).
  { apply inject_Z_le_iff with (a := 0%Z). apply floor_greatest. exact Hs. }
  split; [|split].
  - apply Qle_shift_div_l; [exact HT|]. lra.
  - apply Qle_shift_div_r; [exact HT|]. exact Hlo.
  - assert (E : inject_Z (Qfloor (x * 10 ^ d)) / 10 ^ d + / 10 ^ d ==
                (inject_Z (Qfloor (x * 10 ^ d)) + 1) / 10 ^ d)
      by (field; lra).
    rewrite E. apply Qlt_shift_div_l; [exact HT | exact Hhi].
Qed.

Lemma truncate_to_monotone (d : Z) (x y : Q) :
  0 <= x -> x <= y -> truncate_to d x <= truncate_to d y.
Proof.
  intros Hx Hxy. pose proof (pow10_pos d) as HT.
  assert (Hsx : 0 <= x * 10 ^ d) by (apply Qmult_le_0_compat; lra).
  assert (Hsy : x * 10 ^ d <= y * 10 ^ d)
    by (apply Qmult_le_compat_r; lra).
  unfold truncate_to.
  rewrite (Qtruncate_nonneg _ Hsx), Qtruncate_nonneg by lra.
  apply Qmult_le_compat_r; [|apply Qlt_le_weak, Qinv_lt_0_compat, HT].
  apply inject_Z_le_iff, Qfloor_resp_le, Hsy.
Qed.

(** A number with at most [d] fractional digits is left as it is. *)
Lemma truncate_to_exact (d : Z) (x : Q) (n : Z) :
  x * 10 ^ d == inject_Z n -> truncate_to d x == x.
Proof.
  intros H. pose proof (pow10_pos d) as HT. unfold truncate_to.
  rewrite (Qtruncate_compat _ _ H), Qtruncate_Z, <- H. field. lra.
Qed.

Lemma pow10_inverse (a b : Z) : 10 ^ (a - b) * 10 ^ (b - a) == 1.
Proof.
  rewrite <- Qpower_plus by discriminate.
  replace (a - b + (b - a))%Z with 0%Z by lia. reflexivity.
Qed.

(** ** Strategy codec adapter: the round trip *)

(** Direct rates decode to the price that was encoded. *)
Lemma normalizeRate_roundtrip (x : Q) (b q : Z) :
  normalizeRate (normalizeRate (Fin x) q b) b q = Dec.toFixed (Fin x).
Proof.
  rewrite !normalizeRate_value. cbn [Dec.toFixed]. f_equal.
  apply Qred_complete. rewrite Qred_correct, <- Qmult_assoc, pow10_inverse.
  apply Qmult_1_r.
Qed.

(** Inverted rates decode to the price that was encoded, provided the price
    and its rate both read as nonzero numbers. *)
Lemma normalizeInvertedRate_roundtrip (x : Q) (b q : Z) :
  Dec.numberIsZero (Fin x) = false ->
  Dec.numberIsZero (Fin (1 / x * 10 ^ (b - q))) = false ->
  normalizeInvertedRate (normalizeInvertedRate (Fin x) q b) q b =
  Dec.toFixed (Fin x).
Proof.
  intros Hx Hr. rewrite (normalizeInvertedRate_value _ _ _ Hx).
  rewrite normalizeInvertedRate_value.
  - cbn [Dec.toFixed]. f_equal. apply Qred_complete. rewrite Qred_correct.
    pose proof (pow10_pos (b - q)).
    apply numberIsZero_false_nonzero in Hx. field. split; lra.
  - rewrite <- Hr. apply numberIsZero_compat, Qred_correct.
Qed.

Lemma formatUnits_parseUnits (x : Q) (d : Z) :
  formatUnits (parseUnits x d) d = Dec.toFixed (Fin (truncate_to d x)).
Proof. reflexivity. Qed.

(** C3, as stated, fails on a budget with more fractional digits than its
    token: with an identity codec and 6 quote decimals the buy budget
    1000.0000001 comes back as 1000. *)
Lemma roundtrip_budget_trimmed :
  exists s st,
    buildStrategyObject "base" "quote" 18 6
      1800 1900 2000 (10000000001 # 10000000)
      2000 2100 2200 (1 # 2) = inr s /\
    parseStrategy (fun e => e) (twoTokenDecimals "base" 18 6)
      (decodeStrategy identityCodec
         (EncodedStrategy.stored 7 (encodeStrategy identityCodec s)))
    = inr st /\
    Strategy.buyBudget st = Fin 1000 /\
    Strategy.buyBudget st <> Dec.toFixed (Fin (10000000001 # 10000000)).
Proof.
  eexists. eexists. split; [vm_compute; reflexivity|].
  split; [vm_compute; reflexivity|].
  split; [reflexivity | discriminate].
Qed.

Section Roundtrip.

Context {EncodedOrder EncodedStr : Type}.
Variable encodeOrder : DecodedOrder -> EncodedOrder.
Variable decodeOrder : EncodedOrder -> DecodedOrder.
Variable encodedStrategyBNToStr : EncodedStrategy.t EncodedOrder -> EncodedStr.
Variable fetchDecimals : string -> string + Z.

(** C3, amended.  With a codec whose decoding undoes its encoding and a
    resolver that returns the decimals used to build, every valid input
    builds, and parsing the stored strategy gives back the six prices as
    numbers, provided the sell prices survive the inversion, and each
    budget trimmed to the decimals of its token, hence the budget itself
    when it has no more fractional digits than that. *)
Theorem parseStrategy_buildStrategyObject_roundtrip
    (baseToken quoteToken : string) (b q id : Z)
    (bpl bpm bph bb spl spm sph sb : Q)
    (Hcodec : forall o, decodeOrder (encodeOrder o) = o)
    (Hbase : fetchDecimals baseToken = inr b)
    (Hquote : fetchDecimals quoteToken = inr q)
    (Hbuy : 0 < bpl /\ bpl <= bpm /\ bpm <= bph)
    (Hsell : 0 < spl /\ spl <= spm /\ spm <= sph)
    (Hbudgets : 0 <= bb /\ 0 <= sb)
    (Hlow : survivesInversion b q spl)
    (Hmarginal : survivesInversion b q spm)
    (Hhigh : survivesInversion b q sph) :
  exists s st,
    buildStrategyObject baseToken quoteToken b q
      bpl bpm bph bb spl spm sph sb = inr s /\
    parseStrategy encodedStrategyBNToStr fetchDecimals
      (decodeStrategy decodeOrder
         (EncodedStrategy.stored id (encodeStrategy encodeOrder s)))
    = inr st /\
    Strategy.baseToken st = baseToken /\
    Strategy.quoteToken st = quoteToken /\
    Strategy.buyPriceLow st = Dec.toFixed (Fin bpl) /\
    Strategy.buyPriceMarginal st = Dec.toFixed (Fin bpm) /\
    Strategy.buyPriceHigh st = Dec.toFixed (Fin bph) /\
    Strategy.sellPriceLow st = Dec.toFixed (Fin spl) /\
    Strategy.sellPriceMarginal st = Dec.toFixed (Fin spm) /\
    Strategy.sellPriceHigh st = Dec.toFixed (Fin sph) /\
    Strategy.buyBudget st = Dec.toFixed (Fin (truncate_to q bb)) /\
    Strategy.sellBudget st = Dec.toFixed (Fin (truncate_to b sb)) /\
    (forall n, bb * 10 ^ q == inject_Z n ->
               Strategy.buyBudget st = Dec.toFixed (Fin bb)) /\
    (forall n, sb * 10 ^ b == inject_Z n ->
               Strategy.sellBudget st = Dec.toFixed (Fin sb)).
Proof.
  eexists. eexists.
  rewrite buildStrategyObject_succeeds.
  2: { unfold somePriceNegative. lra. }
  2: { unfold someSideMisordered. lra. }
  2: { unfold someBudgetNegative. lra. }
  split; [reflexivity|].
  unfold parseStrategy, decodeStrategy, encodeStrategy,
    EncodedStrategy.stored.
  cbn [IdentifiedStrategy.id IdentifiedStrategy.token0
       IdentifiedStrategy.token1 IdentifiedStrategy.order0
       IdentifiedStrategy.order1 IdentifiedStrategy.encoded
       EncodedStrategy.nToken0 EncodedStrategy.nToken1
       EncodedStrategy.nOrder0 EncodedStrategy.nOrder1
       EncodedStrategy.id EncodedStrategy.token0 EncodedStrategy.token1
       EncodedStrategy.order0 EncodedStrategy.order1
       DecodedStrategy.token0 DecodedStrategy.token1
       DecodedStrategy.order0 DecodedStrategy.order1].
  rewrite !Hcodec, Hbase, Hquote.
  split; [reflexivity|]. split; [reflexivity|].
  cbn [Strategy.baseToken Strategy.quoteToken
       Strategy.buyPriceLow Strategy.buyPriceMarginal Strategy.buyPriceHigh
       Strategy.sellPriceLow Strategy.sellPriceMarginal
       Strategy.sellPriceHigh Strategy.buyBudget Strategy.sellBudget
       createOrders Orders.order0 Orders.order1
       liquidity lowestRate marginalRate highestRate].
  destruct Hlow as [Hl1 Hl2], Hmarginal as [Hm1 Hm2], Hhigh as [Hh1 Hh2].
  rewrite !normalizeRate_roundtrip.
  rewrite !normalizeInvertedRate_roundtrip by assumption.
  rewrite !formatUnits_parseUnits.
  repeat split.
  - intros n Hn. cbn [Dec.toFixed]. f_equal. apply Qred_complete.
    apply (truncate_to_exact _ _ n Hn).
  - intros n Hn. cbn [Dec.toFixed]. f_equal. apply Qred_complete.
    apply (truncate_to_exact _ _ n Hn).
Qed.

End Roundtrip.

Lemma parseStrategy_buildStrategyObject_roundtrip_witness :
  exists s st,
    buildStrategyObject "base" "quote" 18 6
      1800 1900 2000 1000 2000 2100 2200 (1 # 2) = inr s /\
    parseStrategy (fun e => e) (twoTokenDecimals "base" 18 6)
      (decodeStrategy identityCodec
         (EncodedStrategy.stored 7 (encodeStrategy identityCodec s)))
    = inr st /\
    Strategy.buyPriceLow st = Fin 1800 /\
    Strategy.sellPriceHigh st = Fin 2200 /\
    Strategy.buyBudget st = Fin 1000 /\
    Strategy.sellBudget st = Fin (1 # 2).
Proof.
  destruct (parseStrategy_buildStrategyObject_roundtrip
              identityCodec identityCodec (fun e => e)
              (twoTokenDecimals "base" 18 6)
              "base" "quote" 18 6 7
              1800 1900 2000 1000 2000 2100 2200 (1 # 2))
    as (s & st & Hs & Hst & _ & _ & Hbl & _ & _ & _ & _ & Hsh & _ & _
        & Hbb & Hsb).
  - intros o. reflexivity.
  - reflexivity.
  - reflexivity.
  - split; [reflexivity | split; discriminate].
  - split; [reflexivity | split; discriminate].
  - split; discriminate.
  - split; vm_compute; reflexivity.
  - split; vm_compute; reflexivity.
  - split; vm_compute; reflexivity.
  - exists s, st. split; [exact Hs|]. split; [exact Hst|].
    split; [rewrite Hbl; reflexivity|].
    split; [rewrite Hsh; reflexivity|].
    split.
    + apply (Hbb 1000000000%Z). vm_compute. reflexivity.
    + apply (Hsb 500000000000000000%Z). vm_compute. reflexivity.
Defined.

(** ** Overlapping distribution solver *)

Lemma div_fin (p q : Q) : ~ q == 0 -> Dec.div (Fin p) (Fin q) = Fin (p / q).
Proof.
  intros H. cbn [Dec.div]. apply iszero_false in H. rewrite H. reflexivity.
Qed.

Lemma div_fin_zero (p q : Q) :
  q == 0 ->
  Dec.div (Fin p) (Fin q) = if Dec.iszero p then NaN else Inf (Dec.isneg p).
Proof.
  intros H. cbn [Dec.div]. apply iszero_true in H. rewrite H. reflexivity.
Qed.

Lemma sqrt_fin (Qsqrt : Q -> Q) (x : Q) :
  0 < x -> Dec.sqrt Qsqrt (Fin x) = Fin (Qsqrt x).
Proof.
  intros H. cbn [Dec.sqrt].
  assert (Hz : Dec.iszero x = false) by (apply iszero_false; lra).
  assert (Hn : Dec.isneg x = false) by (apply isneg_false; lra).
  rewrite Hz, Hn. reflexivity.
Qed.

Lemma trim_toString (x : Q) (d : Z) :
  trimDecimal (Dec.toString (Fin x)) d = Dec.toFixed (Fin (truncate_to d x)).
Proof.
  cbn [Dec.toString Dec.toFixed trimDecimal]. f_equal.
  apply Qred_complete. rewrite (truncate_to_compat d (Qred x) x);
    [reflexivity | apply Qred_correct].
Qed.

Lemma trim_toString_compat (x y : Q) (d : Z) :
  x == y ->
  trimDecimal (Dec.toString (Fin x)) d = Dec.toFixed (Fin (truncate_to d y)).
Proof.
  intros H. rewrite trim_toString. cbn [Dec.toFixed].
  rewrite (truncate_to_compat d x y H). reflexivity.
Qed.

(** Trimming cuts toward zero and by less than one unit of the last digit. *)
Lemma truncate_to_toward_zero (d : Z) (x : Q) :
  (0 <= x -> 0 <= truncate_to d x <= x /\ x - truncate_to d x < / 10 ^ d) /\
  (x <= 0 -> x <= truncate_to d x <= 0 /\ truncate_to d x - x < / 10 ^ d).
Proof.
  split; intros H.
  - destruct (truncate_to_bounds d x H) as (H1 & H2 & H3).
    repeat split; lra.
  - pose proof (pow10_pos d) as HT.
    destruct (Qeq_dec x 0) as [Hz|Hz].
    + assert (E : truncate_to d x == 0).
      { rewrite (truncate_to_compat d x 0 Hz). unfold truncate_to.
        rewrite (Qtruncate_compat (0 * 10 ^ d) (inject_Z 0)) by ring.
        rewrite Qtruncate_Z. field. lra. }
      assert (0 < / 10 ^ d) by (apply Qinv_lt_0_compat; exact HT).
      rewrite E. repeat split; lra.
    + assert (Hneg : x * 10 ^ d < 0).
      { setoid_replace (x * 10 ^ d) with (- ((- x) * 10 ^ d)) by ring.
        assert (0 < - x * 10 ^ d) by (apply Qmult_lt_0_compat; lra). lra. }
      unfold truncate_to, Qtruncate.
      assert (En : Dec.isneg (x * 10 ^ d) = true) by (apply isneg_true; exact Hneg).
      rewrite En.
      destruct (ceiling_bounds (x * 10 ^ d)) as [Hlo Hhi].
      assert (Hc : inject_Z (Qceiling (x * 10 ^ d)) <= 0).
      { apply inject_Z_le_iff with (b := 0%Z). apply ceiling_least.
        apply Qlt_le_weak. exact Hneg. }
      split; [split|].
      * apply Qle_shift_div_l; [exact HT | exact Hhi].
      * apply Qle_shift_div_r; [exact HT | lra].
      * assert (E : inject_Z (Qceiling (x * 10 ^ d)) / 10 ^ d - x ==
                    (inject_Z (Qceiling (x * 10 ^ d)) - x * 10 ^ d) / 10 ^ d)
          by (field; lra).
        rewrite E.
        setoid_replace (/ 10 ^ d) with (1 / 10 ^ d) by (field; lra).
        apply Qlt_shift_div_r; [exact HT|].
        setoid_replace (1 / 10 ^ d * 10 ^ d) with 1 by (field; lra). lra.
Qed.

Section SolverFacts.

Variables bpl sph sp : Q.

(** The buy range is empty exactly in the two degenerate cases. *)
Lemma buyPriceRange_zero_iff :
  Reference.buyPriceHigh bpl sph sp - bpl == 0 <-> sp == 100 \/ bpl == sph.
Proof.
  unfold Reference.buyPriceHigh, Reference.spread, Reference.totalRange.
  split.
  - intros H. destruct (Qeq_dec bpl sph) as [E|E]; [right; exact E|left].
    assert (F : (sph - bpl) * (100 - sp) == 0).
    { setoid_replace ((sph - bpl) * (100 - sp))
        with (100 * (sph - (sph - bpl) * sp / 100 - bpl)) by field.
      rewrite H. ring. }
    apply Qmult_integral in F. destruct F as [F|F]; [exfalso; lra | lra].
  - intros [H|H]; rewrite H; field.
Qed.

End SolverFacts.

(** The value of the solver when no divisor vanishes. *)
Lemma calculateOverlappingDistribution_value
    (Qsqrt : Q -> Q) (b q : Z) (bpl sph m sp bud : Q) :
  ~ sp == 100 -> ~ bpl == sph ->
  ~ Reference.buyLowBudgetRatio bpl sph m sp == 0 ->
  0 < bpl * sph ->
  ~ Reference.geoMean Qsqrt bpl sph == 0 ->
  calculateOverlappingDistribution Qsqrt b q bpl sph m sp bud =
  inr {|
    OverlappingDistributionResult.buyPriceHigh :=
      Dec.toFixed (Fin (truncate_to q (Reference.buyPriceHigh bpl sph sp)));
    OverlappingDistributionResult.buyPriceMarginal :=
      Dec.toFixed
        (Fin (truncate_to q (Reference.buyPriceMarginal bpl sph m sp)));
    OverlappingDistributionResult.sellPriceLow :=
      Dec.toFixed (Fin (truncate_to q (Reference.sellPriceLow bpl sph sp)));
    OverlappingDistributionResult.sellPriceMarginal :=
      Dec.toFixed
        (Fin (truncate_to q (Reference.sellPriceMarginal bpl sph m sp)));
    OverlappingDistributionResult.sellBudget :=
      Dec.toFixed
        (Fin (truncate_to b (Reference.sellBudget Qsqrt bpl sph m sp bud)))
  |}.
Proof.
  intros Hspread Hbounds Hratio Hprod Hgeo.
  assert (Hrange : ~ Reference.buyPriceHigh bpl sph sp - bpl == 0).
  { rewrite buyPriceRange_zero_iff. tauto. }
  unfold calculateOverlappingDistribution.
  cbn [Dec.minus Dec.plus Dec.neg Dec.mul Dec.times].
  rewrite (div_fin _ 100) by discriminate.
  cbn [Dec.minus Dec.plus Dec.neg Dec.mul Dec.times].
  rewrite (div_fin _ 2) by discriminate.
  cbn [Dec.minus Dec.plus Dec.neg Dec.mul Dec.times].
  rewrite (div_fin _ (sph + - ((sph + - bpl) * sp / 100) + - bpl))
    by exact Hrange.
  rewrite (div_fin bud) by exact Hratio.
  cbn [Dec.minus Dec.plus Dec.neg Dec.mul Dec.times].
  rewrite (sqrt_fin Qsqrt _ Hprod).
  rewrite div_fin by exact Hgeo.
  cbn [Dec.minus Dec.plus Dec.neg Dec.mul Dec.times].
  rewrite !trim_toString. reflexivity.
Qed.

(** C4. On a non-degenerate input, one where no divisor of the twelve steps
    is zero and the product of the outer bounds is positive, the solver
    returns the five values of the reference algorithm, the four prices cut
    to the decimals of the quote token and the sell budget to those of the
    base token; the cut is toward zero, never a rounding up. *)
Theorem calculateOverlappingDistribution_reference
    (Qsqrt : Q -> Q) (b q : Z) (bpl sph m sp bud : Q)
    (Hspread : ~ sp == 100) (Hbounds : ~ bpl == sph)
    (Hratio : ~ Reference.buyLowBudgetRatio bpl sph m sp == 0)
    (Hprod : 0 < bpl * sph)
    (Hgeo : ~ Reference.geoMean Qsqrt bpl sph == 0) :
  calculateOverlappingDistribution Qsqrt b q bpl sph m sp bud =
  inr {|
    OverlappingDistributionResult.buyPriceHigh :=
      Dec.toFixed (Fin (truncate_to q (Reference.buyPriceHigh bpl sph sp)));
    OverlappingDistributionResult.buyPriceMarginal :=
      Dec.toFixed
        (Fin (truncate_to q (Reference.buyPriceMarginal bpl sph m sp)));
    OverlappingDistributionResult.sellPriceLow :=
      Dec.toFixed (Fin (truncate_to q (Reference.sellPriceLow bpl sph sp)));
    OverlappingDistributionResult.sellPriceMarginal :=
      Dec.toFixed
        (Fin (truncate_to q (Reference.sellPriceMarginal bpl sph m sp)));
    OverlappingDistributionResult.sellBudget :=
      Dec.toFixed
        (Fin (truncate_to b (Reference.sellBudget Qsqrt bpl sph m sp bud)))
  |} /\
  (forall d x,
     (0 <= x -> 0 <= truncate_to d x <= x /\ x - truncate_to d x < / 10 ^ d) /\
     (x <= 0 -> x <= truncate_to d x <= 0 /\ truncate_to d x - x < / 10 ^ d)).
Proof.
  split; [|apply truncate_to_toward_zero].
  apply calculateOverlappingDistribution_value; assumption.
Qed.

Lemma calculateOverlappingDistribution_reference_witness :
  exists r,
    calculateOverlappingDistribution (sqrt_digits 20) 18 6
      1800 2200 2000 (1 # 10) 1000 = inr r /\
    OverlappingDistributionResult.buyPriceHigh r = Fin (10998 # 5) /\
    OverlappingDistributionResult.buyPriceMarginal r = Fin (9999 # 5) /\
    OverlappingDistributionResult.sellPriceLow r = Fin (9002 # 5) /\
    OverlappingDistributionResult.sellPriceMarginal r = Fin (10001 # 5) /\
    OverlappingDistributionResult.sellBudget r =
      Fin (502518907629606037 # 1000000000000000000).
Proof.
  destruct (calculateOverlappingDistribution_reference (sqrt_digits 20) 18 6
              1800 2200 2000 (1 # 10) 1000) as [H _].
  - intros H. discriminate H.
  - intros H. discriminate H.
  - intros H. vm_compute in H. discriminate H.
  - reflexivity.
  - intros H. vm_compute in H. discriminate H.
  - eexists. split; [exact H|]. repeat split; vm_compute; reflexivity.
Defined.

(** C1, as stated, fails: with a spread of 100 percent the call returns a
    record, three of whose fields are the string of NaN. *)
Lemma calculateOverlappingDistribution_full_spread_returns :
  calculateOverlappingDistribution (sqrt_digits 20) 18 6
    1800 2200 2000 100 1000 =
  inr {|
    OverlappingDistributionResult.buyPriceHigh := Fin 1800;
    OverlappingDistributionResult.buyPriceMarginal := NaN;
    OverlappingDistributionResult.sellPriceLow := Fin 2200;
    OverlappingDistributionResult.sellPriceMarginal := NaN;
    OverlappingDistributionResult.sellBudget := NaN
  |} /\
  forall msg : string,
    calculateOverlappingDistribution (sqrt_digits 20) 18 6
      1800 2200 2000 100 1000 <> inl msg.
Proof.
  split; [vm_compute; reflexivity|].
  intros msg H. vm_compute in H. discriminate H.
Qed.

(** Dividing any budget by a non-finite ratio, then by any mean, then
    multiplying by one minus the ratio, ends in NaN. *)
Lemma degenerate_budget (bud : Q) (ratio geo : Decimal) :
  ~ Dec.finite ratio ->
  Dec.mul (Dec.div (Dec.div (Fin bud) ratio) geo) (Dec.minus (Fin 1) ratio)
  = NaN.
Proof.
  intros H. destruct ratio as [p|s|].
  - exfalso. apply H. exact I.
  - cbn [Dec.div Dec.minus Dec.neg Dec.plus].
    destruct geo as [g|s'|]; cbn [Dec.div Dec.mul Dec.times].
    + change (Dec.iszero 0) with true.
      destruct (Dec.iszero g) eqn:E; cbn [Dec.times]; [reflexivity|].
      assert (Hz : Dec.iszero (0 / g) = true).
      { apply iszero_true. unfold Qdiv. ring. }
      unfold Dec.mul. cbn [Dec.times]. rewrite Hz. reflexivity.
    + reflexivity.
    + reflexivity.
  - reflexivity.
Qed.

(** C1, amended.  With a spread of 100 percent or equal outer bounds the
    solver raises nothing: it returns a record whose inner bounds are the
    trimmed outer bounds and whose two marginal prices and sell budget are
    NaN. *)
Theorem calculateOverlappingDistribution_degenerate
    (Qsqrt : Q -> Q) (b q : Z) (bpl sph m sp bud : Q)
    (Hdegenerate : sp == 100 \/ bpl == sph) :
  calculateOverlappingDistribution Qsqrt b q bpl sph m sp bud =
  inr {|
    OverlappingDistributionResult.buyPriceHigh :=
      Dec.toFixed (Fin (truncate_to q bpl));
    OverlappingDistributionResult.buyPriceMarginal := NaN;
    OverlappingDistributionResult.sellPriceLow :=
      Dec.toFixed (Fin (truncate_to q sph));
    OverlappingDistributionResult.sellPriceMarginal := NaN;
    OverlappingDistributionResult.sellBudget := NaN
  |}.
Proof.
  pose proof (proj2 (buyPriceRange_zero_iff bpl sph sp) Hdegenerate) as Hr.
  unfold Reference.buyPriceHigh, Reference.spread, Reference.totalRange in Hr.
  set (spread := (sph - bpl) * sp / 100) in Hr.
  assert (Hs : sph - (bpl + spread) == 0) by lra.
  assert (Hh : sph - spread == bpl) by lra.
  assert (Hl : bpl + spread == sph) by lra.
  subst spread.
  unfold calculateOverlappingDistribution.
  cbn [Dec.minus Dec.plus Dec.neg Dec.mul Dec.times].
  rewrite (div_fin _ 100) by discriminate.
  cbn [Dec.minus Dec.plus Dec.neg Dec.mul Dec.times].
  rewrite (div_fin _ 2) by discriminate.
  cbn [Dec.minus Dec.plus Dec.neg].
  assert (Hr' : Dec.iszero (sph + - ((sph + - bpl) * sp / 100) + - bpl)
                = true) by (apply iszero_true; exact Hr).
  assert (Hs' : Dec.iszero (sph + - (bpl + (sph + - bpl) * sp / 100))
                = true) by (apply iszero_true; exact Hs).
  rewrite (div_fin_zero _ _ Hr).
  pose proof (degenerate_budget bud) as Hb. unfold Dec.mul, Dec.minus in Hb.
  destruct (Dec.iszero (m + - bpl + - _)).
  - rewrite Hb by (intros H; exact H).
    cbn [Dec.minus Dec.plus Dec.neg Dec.mul Dec.times
         trimDecimal Dec.toString Dec.toFixed].
    rewrite (truncate_to_compat q (Qred _) bpl)
      by (rewrite Qred_correct; exact Hh).
    rewrite (truncate_to_compat q (Qred (bpl + _)) sph)
      by (rewrite Qred_correct; exact Hl).
    reflexivity.
  - rewrite Hb by (intros H; exact H).
    cbn [Dec.minus Dec.plus Dec.neg Dec.mul Dec.times].
    rewrite Hr', Hs'.
    cbn [Dec.minus Dec.plus Dec.neg Dec.mul Dec.times
         trimDecimal Dec.toString Dec.toFixed].
    rewrite (truncate_to_compat q (Qred _) bpl)
      by (rewrite Qred_correct; exact Hh).
    rewrite (truncate_to_compat q (Qred (bpl + _)) sph)
      by (rewrite Qred_correct; exact Hl).
    reflexivity.
Qed.

Lemma calculateOverlappingDistribution_degenerate_witness :
  (100 == 100 \/ 1800 == 2200) /\
  calculateOverlappingDistribution (sqrt_digits 20) 18 6
    1800 2200 2000 100 1000 =
  inr {|
    OverlappingDistributionResult.buyPriceHigh := Fin 1800;
    OverlappingDistributionResult.buyPriceMarginal := NaN;
    OverlappingDistributionResult.sellPriceLow := Fin 2200;
    OverlappingDistributionResult.sellPriceMarginal := NaN;
    OverlappingDistributionResult.sellBudget := NaN
  |}.
Proof.
  assert (H : 100 == 100 \/ 1800 == 2200) by (left; reflexivity).
  split; [exact H|].
  rewrite (calculateOverlappingDistribution_degenerate
             (sqrt_digits 20) 18 6 1800 2200 2000 100 1000 H).
  vm_compute. reflexivity.
Defined.

(** C5, as stated, fails with the market price strictly inside the outer
    bounds but within half a spread of the low one: the marginal buy price
    falls below the low buy price and the sell budget is negative. *)
Lemma calculateOverlappingDistribution_market_near_bound_unordered :
  0 < 1800 /\ 1800 < 2200 /\ 0 <= 10 /\ 10 < 100 /\
  1800 < 1810 /\ 1810 < 2200 /\
  exists r,
    calculateOverlappingDistribution (sqrt_digits 20) 18 6
      1800 2200 1810 10 1000 = inr r /\
    OverlappingDistributionResult.buyPriceMarginal r = Fin 1790 /\
    ~ Dec.le (Fin 1800) (OverlappingDistributionResult.buyPriceMarginal r) /\
    ~ Dec.le (Fin 0) (OverlappingDistributionResult.sellBudget r).
Proof.
  repeat (split; [first [reflexivity | discriminate]|]).
  eexists. split; [vm_compute; reflexivity|].
  split; [reflexivity|].
  split; intros H; vm_compute in H; apply H; reflexivity.
Qed.

Section OrderedOutputs.

Variables bpl sph m sp : Q.
Hypothesis Hlow : 0 < bpl.
Hypothesis Hbounds : bpl < sph.
Hypothesis Hspread : 0 <= sp /\ sp < 100.

Hypothesis Hmarket :
  bpl + Reference.spread bpl sph sp / 2 < m /\
  m <= sph - Reference.spread bpl sph sp / 2.

Lemma spread_bounds :
  0 <= Reference.spread bpl sph sp /\
  Reference.spread bpl sph sp < sph - bpl.
Proof.
  unfold Reference.spread, Reference.totalRange.
  destruct Hspread as [H0 H1]. split.
  - apply Qle_shift_div_l; [reflexivity|]. rewrite Qmult_0_l.
    apply Qmult_le_0_compat; lra.
  - apply Qlt_shift_div_r; [reflexivity|].
    apply Qmult_lt_l; lra.
Qed.

Lemma buyLowBudgetRatio_bounds :
  0 < Reference.buyLowBudgetRatio bpl sph m sp /\
  Reference.buyLowBudgetRatio bpl sph m sp <= 1.
Proof.
  pose proof spread_bounds as [Hs0 Hs1]. destruct Hmarket as [Hm0 Hm1].
  unfold Reference.buyLowBudgetRatio, Reference.buyLowRange,
    Reference.buyPriceHigh.
  revert Hs0 Hs1 Hm0 Hm1. generalize (Reference.spread bpl sph sp).
  intros s Hs0 Hs1 Hm0 Hm1.
  assert (Hhalf : s == 2 * (s / 2)) by field. split.
  - apply Qlt_shift_div_l; lra.
  - apply Qle_shift_div_r; lra.
Qed.

Lemma buyPriceMarginal_closed :
  Reference.buyPriceMarginal bpl sph m sp ==
  m - Reference.spread bpl sph sp / 2.
Proof.
  pose proof spread_bounds as [Hs0 Hs1].
  unfold Reference.buyPriceMarginal, Reference.buyLowBudgetRatio,
    Reference.buyLowRange, Reference.buyPriceHigh.
  revert Hs0 Hs1. generalize (Reference.spread bpl sph sp).
  intros s Hs0 Hs1. field. lra.
Qed.

Lemma sellPriceMarginal_closed :
  Reference.sellPriceMarginal bpl sph m sp ==
  m + Reference.spread bpl sph sp / 2.
Proof.
  pose proof spread_bounds as [Hs0 Hs1].
  unfold Reference.sellPriceMarginal, Reference.sellHighBudgetRatio,
    Reference.buyLowBudgetRatio, Reference.buyLowRange,
    Reference.buyPriceHigh, Reference.sellPriceLow.
  revert Hs0 Hs1. generalize (Reference.spread bpl sph sp).
  intros s Hs0 Hs1. field. lra.
Qed.

Lemma sellBudget_nonneg (Qsqrt : Q -> Q) (bud : Q) :
  0 <= bud -> 0 < Qsqrt (bpl * sph) ->
  0 <= Reference.sellBudget Qsqrt bpl sph m sp bud.
Proof.
  intros Hbud Hgeo. pose proof buyLowBudgetRatio_bounds as [Hr0 Hr1].
  unfold Reference.sellBudget, Reference.sellOrderYint,
    Reference.buyOrderYint, Reference.sellHighBudgetRatio,
    Reference.geoMean.
  apply Qmult_le_0_compat; [|lra].
  apply Qle_shift_div_l; [exact Hgeo|]. rewrite Qmult_0_l.
  apply Qle_shift_div_l; [exact Hr0|]. rewrite Qmult_0_l. exact Hbud.
Qed.

End OrderedOutputs.

(** C5, amended.  For positive ordered outer bounds, a spread percentage in
    [0, 100), a non-negative budget, a low buy price with no more fractional
    digits than the quote token, and a market price more than half a spread
    above the low buy price and at least half a spread below the high sell
    price, the returned prices are ordered on both sides within the outer
    bounds and the sell budget is not negative. *)
Theorem calculateOverlappingDistribution_ordered
    (Qsqrt : Q -> Q) (b q : Z) (bpl sph m sp bud : Q)
    (Hlow : 0 < bpl) (Hbounds : bpl < sph)
    (Hspread : 0 <= sp /\ sp < 100)
    (Hbud : 0 <= bud)
    (Hmarket : bpl + Reference.spread bpl sph sp / 2 < m /\
               m <= sph - Reference.spread bpl sph sp / 2)
    (Hdigits : truncate_to q bpl == bpl)
    (Hsqrt : 0 < Qsqrt (bpl * sph)) :
  exists r,
    calculateOverlappingDistribution Qsqrt b q bpl sph m sp bud = inr r /\
    Dec.le (Fin bpl) (OverlappingDistributionResult.sellPriceLow r) /\
    Dec.le (OverlappingDistributionResult.sellPriceLow r)
           (OverlappingDistributionResult.sellPriceMarginal r) /\
    Dec.le (OverlappingDistributionResult.sellPriceMarginal r) (Fin sph) /\
    Dec.le (Fin bpl) (OverlappingDistributionResult.buyPriceMarginal r) /\
    Dec.le (OverlappingDistributionResult.buyPriceMarginal r)
           (OverlappingDistributionResult.buyPriceHigh r) /\
    Dec.le (OverlappingDistributionResult.buyPriceHigh r) (Fin sph) /\
    Dec.le (Fin 0) (OverlappingDistributionResult.sellBudget r).
Proof.
  pose proof (spread_bounds bpl sph sp Hbounds Hspread) as [Hs0 Hs1].
  pose proof (buyLowBudgetRatio_bounds bpl sph m sp Hbounds Hspread Hmarket)
    as [Hr0 Hr1].
  pose proof (buyPriceMarginal_closed bpl sph m sp Hbounds Hspread) as Hbm.
  pose proof (sellPriceMarginal_closed bpl sph m sp Hbounds Hspread) as Hsm.
  pose proof (sellBudget_nonneg bpl sph m sp Hbounds Hspread Hmarket
                Qsqrt bud Hbud Hsqrt) as Hsb.
  rewrite calculateOverlappingDistribution_value.
  2: lra. 2: lra. 2: lra.
  2: { apply Qmult_lt_0_compat; lra. }
  2: { unfold Reference.geoMean. lra. }
  eexists. split; [reflexivity|].
  cbn [OverlappingDistributionResult.buyPriceHigh
       OverlappingDistributionResult.buyPriceMarginal
       OverlappingDistributionResult.sellPriceLow
       OverlappingDistributionResult.sellPriceMarginal
       OverlappingDistributionResult.sellBudget Dec.toFixed Dec.le].
  rewrite !Qred_correct.
  unfold Reference.buyPriceHigh, Reference.sellPriceLow.
  destruct Hmarket as [Hm0 Hm1].
  revert Hs0 Hs1 Hm0 Hm1 Hbm Hsm.
  generalize (Reference.spread bpl sph sp). intros s Hs0 Hs1 Hm0 Hm1 Hbm Hsm.
  assert (Hhalf : s == 2 * (s / 2)) by field.
  assert (Hl : bpl <= truncate_to q (bpl + s)).
  { rewrite <- Hdigits at 1. apply truncate_to_monotone; lra. }
  assert (Hb : bpl <= truncate_to q (m - s / 2)).
  { rewrite <- Hdigits at 1. apply truncate_to_monotone; lra. }
  rewrite (truncate_to_compat q _ _ Hbm), (truncate_to_compat q _ _ Hsm).
  repeat split.
  - exact Hl.
  - apply truncate_to_monotone; lra.
  - apply Qle_trans with (m + s / 2); [|lra].
    apply truncate_to_bounds. lra.
  - exact Hb.
  - apply truncate_to_monotone; lra.
  - apply Qle_trans with (sph - s); [|lra].
    apply truncate_to_bounds. lra.
  - apply truncate_to_bounds. exact Hsb.
Qed.

Lemma calculateOverlappingDistribution_ordered_witness :
  exists r,
    calculateOverlappingDistribution (sqrt_digits 20) 18 6
      1800 2200 2000 (1 # 10) 1000 = inr r /\
    Dec.le (Fin 1800) (OverlappingDistributionResult.sellPriceLow r) /\
    Dec.le (OverlappingDistributionResult.sellPriceMarginal r) (Fin 2200) /\
    Dec.le (Fin 1800) (OverlappingDistributionResult.buyPriceMarginal r) /\
    Dec.le (OverlappingDistributionResult.buyPriceHigh r) (Fin 2200) /\
    Dec.le (Fin 0) (OverlappingDistributionResult.sellBudget r).
Proof.
  destruct (calculateOverlappingDistribution_ordered (sqrt_digits 20) 18 6
              1800 2200 2000 (1 # 10) 1000)
    as (r & Hr & H1 & _ & H3 & H4 & _ & H6 & H7).
  - reflexivity.
  - reflexivity.
  - split; [discriminate | reflexivity].
  - discriminate.
  - split; [vm_compute; reflexivity | vm_compute; discriminate].
  - vm_compute. reflexivity.
  - vm_compute. reflexivity.
  - exists r. repeat split; assumption.
Defined.

(** * Further properties *)

(** ** Fee calculator *)

(** X1. For integer amounts and a fee below the resolution, grossing up is
    the lower adjoint of netting down: [addFee x] is at most [g] exactly
    when [x] is at most [subtractFee g].  So [addFee x] is the least gross
    amount that nets to at least [x]. *)
Theorem addFee_subtractFee_adjoint (x g f : Z)
    (Hfee : (f < PPM_RESOLUTION)%Z) :
  Dec.le (addFee (Fin (inject_Z x)) f) (Fin (inject_Z g)) <->
  Dec.le (Fin (inject_Z x)) (subtractFee (Fin (inject_Z g)) f).
Proof.
  assert (Hd : 0 < inject_Z (PPM_RESOLUTION - f)) by (apply inject_Z_pos; lia).
  assert (Hp : 0 < inject_Z PPM_RESOLUTION) by reflexivity.
  rewrite (addFee_value _ f Hfee), subtractFee_value. cbn [Dec.le].
  rewrite !inject_Z_le_iff.
  set (d := inject_Z (PPM_RESOLUTION - f)) in *.
  set (P := inject_Z PPM_RESOLUTION) in *.
  assert (Hmid : inject_Z x * P <= inject_Z g * d <->
                 inject_Z x * P / d <= inject_Z g).
  { split; intros H.
    - apply Qle_shift_div_r; assumption.
    - apply (Qmult_le_compat_r _ _ d) in H; [|lra].
      eapply Qle_trans; [|exact H]. apply Qle_lteq. right. field. lra. }
  assert (Hmid' : inject_Z x * P <= inject_Z g * d <->
                  inject_Z x <= inject_Z g * d / P).
  { split; intros H.
    - apply Qle_shift_div_l; assumption.
    - apply (Qmult_le_compat_r _ _ P) in H; [|lra].
      eapply Qle_trans; [exact H|]. apply Qle_lteq. right. field. lra. }
  split; intros H.
  - apply floor_greatest, Hmid', Hmid.
    eapply Qle_trans; [apply Qle_ceiling|]. apply inject_Z_le_iff. exact H.
  - apply ceiling_least, Hmid, Hmid'.
    eapply Qle_trans; [|apply Qfloor_le]. apply inject_Z_le_iff. exact H.
Qed.

Lemma addFee_subtractFee_adjoint_witness :
  Dec.le (addFee (Fin 1000) 2000) (Fin 1003) /\
  Dec.le (Fin 1000) (subtractFee (Fin 1003) 2000).
Proof.
  assert (H : (2000 < PPM_RESOLUTION)%Z) by reflexivity.
  assert (L : Dec.le (addFee (Fin 1000) 2000) (Fin 1003))
    by (vm_compute; discriminate).
  split; [exact L|].
  exact (proj1 (addFee_subtractFee_adjoint 1000 1003 2000 H) L).
Defined.

Lemma inject_Z_lt_iff (a b : Z) : inject_Z a < inject_Z b <-> (a < b)%Z.
Proof. unfold Qlt. simpl. lia. Qed.

(** X2. For an integer amount and a fee in [0, resolution), netting a
    grossed-up amount gives the amount back exactly. *)
Theorem subtractFee_addFee_exact (x f : Z)
    (Hfee : (0 <= f < PPM_RESOLUTION)%Z) :
  subtractFee (addFee (Fin (inject_Z x)) f) f = Fin (inject_Z x).
Proof.
  assert (Hf : (f < PPM_RESOLUTION)%Z) by lia.
  assert (Hd : 0 < inject_Z (PPM_RESOLUTION - f)) by (apply inject_Z_pos; lia).
  assert (Hp : 0 < inject_Z PPM_RESOLUTION) by reflexivity.
  assert (Hdp : inject_Z (PPM_RESOLUTION - f) <= inject_Z PPM_RESOLUTION)
    by (apply inject_Z_le_iff; lia).
  rewrite (addFee_value _ f Hf), subtractFee_value. do 2 f_equal.
  destruct (ceiling_bounds (inject_Z x * inject_Z PPM_RESOLUTION
                            / inject_Z (PPM_RESOLUTION - f))) as [Hlo Hhi].
  revert Hlo Hhi.
  generalize (Qceiling (inject_Z x * inject_Z PPM_RESOLUTION
                        / inject_Z (PPM_RESOLUTION - f))).
  revert Hd Hp Hdp.
  generalize (inject_Z (PPM_RESOLUTION - f)), (inject_Z PPM_RESOLUTION).
  intros d P Hd Hp Hdp a Hlo Hhi.
  assert (Hxa : inject_Z x * P <= inject_Z a * d).
  { apply (Qmult_le_compat_r _ _ d) in Hhi; [|lra].
    eapply Qle_trans; [|exact Hhi]. apply Qle_lteq. right. field. lra. }
  assert (Hax : inject_Z a * d < inject_Z x * P + d).
  { apply (Qmult_lt_compat_r _ _ d) in Hlo; [|exact Hd].
    assert (E1 : (inject_Z a - 1) * d == inject_Z a * d - d) by ring.
    assert (E2 : inject_Z x * P / d * d == inject_Z x * P) by (field; lra).
    rewrite E1, E2 in Hlo. lra. }
  apply Z.le_antisymm.
  - apply Z.lt_succ_r, inject_Z_lt_iff.
    apply Qle_lt_trans with (inject_Z a * d / P); [apply Qfloor_le|].
    unfold Z.succ. rewrite inject_Z_plus.
    apply Qlt_shift_div_r; [exact Hp|].
    assert (E : (inject_Z x + inject_Z 1) * P == inject_Z x * P + P) by ring.
    rewrite E. lra.
  - apply floor_greatest. apply Qle_shift_div_l; assumption.
Qed.

Lemma subtractFee_addFee_exact_witness :
  (0 <= 2000 < PPM_RESOLUTION)%Z /\
  subtractFee (addFee (Fin 1000) 2000) 2000 = Fin 1000.
Proof.
  assert (H : (0 <= 2000 < PPM_RESOLUTION)%Z) by (split; [discriminate | reflexivity]).
  split; [exact H|]. exact (subtractFee_addFee_exact 1000 2000 H).
Defined.

(** X3. For a non-negative amount and a fee in [0, resolution), the gross
    amount is at least the amount and the net amount at most the amount;
    with a zero fee an integer amount is returned unchanged by both. *)
Theorem fee_never_favours_trader (x : Q) (n f : Z)
    (Hx : 0 <= x) (Hfee : (0 <= f < PPM_RESOLUTION)%Z) :
  Dec.le (Fin x) (addFee (Fin x) f) /\
  Dec.le (subtractFee (Fin x) f) (Fin x) /\
  addFee (Fin (inject_Z n)) 0 = Fin (inject_Z n) /\
  subtractFee (Fin (inject_Z n)) 0 = Fin (inject_Z n).
Proof.
  assert (Hf : (f < PPM_RESOLUTION)%Z) by lia.
  assert (Hd : 0 < inject_Z (PPM_RESOLUTION - f)) by (apply inject_Z_pos; lia).
  assert (Hp : 0 < inject_Z PPM_RESOLUTION) by reflexivity.
  assert (Hdp : inject_Z (PPM_RESOLUTION - f) <= inject_Z PPM_RESOLUTION)
    by (apply inject_Z_le_iff; lia).
  split; [|split; [|split]].
  - rewrite (addFee_value _ f Hf). cbn [Dec.le].
    eapply Qle_trans; [|apply Qle_ceiling].
    apply Qle_shift_div_l; [exact Hd|].
    rewrite (Qmult_comm x), (Qmult_comm x).
    apply Qmult_le_compat_r; assumption.
  - rewrite subtractFee_value. cbn [Dec.le].
    eapply Qle_trans; [apply Qfloor_le|].
    apply Qle_shift_div_r; [exact Hp|].
    rewrite (Qmult_comm x), (Qmult_comm x).
    apply Qmult_le_compat_r; assumption.
  - rewrite addFee_value by reflexivity. do 2 f_equal.
    rewrite <- (Qceiling_Z n) at 2. apply Qceiling_comp.
    change (inject_Z (PPM_RESOLUTION - 0)) with (inject_Z PPM_RESOLUTION).
    field. lra.
  - rewrite subtractFee_value. do 2 f_equal.
    rewrite <- (Qfloor_Z n) at 2. apply Qfloor_comp.
    change (inject_Z (PPM_RESOLUTION - 0)) with (inject_Z PPM_RESOLUTION).
    field. lra.
Qed.

Lemma fee_never_favours_trader_witness :
  0 <= 1000 /\ (0 <= 2000 < PPM_RESOLUTION)%Z /\
  Dec.le (Fin 1000) (addFee (Fin 1000) 2000) /\
  Dec.le (subtractFee (Fin 1000) 2000) (Fin 1000).
Proof.
  assert (Hx : 0 <= 1000) by discriminate.
  assert (H : (0 <= 2000 < PPM_RESOLUTION)%Z)
    by (split; [discriminate | reflexivity]).
  split; [exact Hx|]. split; [exact H|].
  destruct (fee_never_favours_trader 1000 0 2000 Hx H) as (H1 & H2 & _).
  split; assumption.
Defined.

(** X4. Both fee operations are monotone in the amount; for a non-negative
    amount the gross amount grows and the net amount shrinks with the fee. *)
Theorem fee_monotone (x y : Q) (f f' : Z)
    (Hxy : x <= y) (Hf : (f <= f' < PPM_RESOLUTION)%Z) :
  Dec.le (addFee (Fin x) f) (addFee (Fin y) f) /\
  Dec.le (subtractFee (Fin x) f) (subtractFee (Fin y) f) /\
  (0 <= x ->
   Dec.le (addFee (Fin x) f) (addFee (Fin x) f') /\
   Dec.le (subtractFee (Fin x) f') (subtractFee (Fin x) f)).
Proof.
  assert (Hf1 : (f < PPM_RESOLUTION)%Z) by lia.
  assert (Hf2 : (f' < PPM_RESOLUTION)%Z) by lia.
  assert (Hd : 0 < inject_Z (PPM_RESOLUTION - f)) by (apply inject_Z_pos; lia).
  assert (Hd' : 0 < inject_Z (PPM_RESOLUTION - f'))
    by (apply inject_Z_pos; lia).
  assert (Hdd : inject_Z (PPM_RESOLUTION - f') <= inject_Z (PPM_RESOLUTION - f))
    by (apply inject_Z_le_iff; lia).
  assert (Hp : 0 < inject_Z PPM_RESOLUTION) by reflexivity.
  rewrite !(addFee_value _ f Hf1), !(addFee_value _ f' Hf2), !subtractFee_value.
  cbn [Dec.le]. rewrite !inject_Z_le_iff.
  split; [|split; [|intros Hx; split]].
  - apply Qceiling_resp_le.
    apply Qmult_le_compat_r; [|apply Qlt_le_weak, Qinv_lt_0_compat, Hd].
    apply Qmult_le_compat_r; lra.
  - apply Qfloor_resp_le.
    apply Qmult_le_compat_r; [|apply Qlt_le_weak, Qinv_lt_0_compat, Hp].
    apply Qmult_le_compat_r; lra.
  - apply Qceiling_resp_le. unfold Qdiv.
    rewrite (Qmult_comm _ (/ _)), (Qmult_comm _ (/ inject_Z (_ - f'))).
    apply Qmult_le_compat_r.
    + apply Qinv_le_contravar; assumption.
    + apply Qmult_le_0_compat; lra.
  - apply Qfloor_resp_le.
    apply Qmult_le_compat_r; [|apply Qlt_le_weak, Qinv_lt_0_compat, Hp].
    rewrite (Qmult_comm x), (Qmult_comm x).
    apply Qmult_le_compat_r; assumption.
Qed.

Lemma fee_monotone_witness :
  1000 <= 1001 /\ (2000 <= 3000 < PPM_RESOLUTION)%Z /\
  Dec.le (addFee (Fin 1000) 2000) (addFee (Fin 1001) 2000) /\
  Dec.le (subtractFee (Fin 1000) 3000) (subtractFee (Fin 1000) 2000).
Proof.
  assert (Hxy : 1000 <= 1001) by discriminate.
  assert (H : (2000 <= 3000 < PPM_RESOLUTION)%Z)
    by (split; [discriminate | reflexivity]).
  split; [exact Hxy|]. split; [exact H|].
  destruct (fee_monotone 1000 1001 2000 3000 Hxy H) as (H1 & _ & H3).
  split; [exact H1|]. apply H3. discriminate.
Defined.

(** X5. With a fee of the whole resolution the divisor of [addFee] is
    zero: nothing is thrown, the result is Infinity for a positive amount,
    minus Infinity for a negative one and NaN for zero; [subtractFee]
    returns zero. *)
Theorem fee_of_whole_resolution (x : Q) :
  (0 < x -> addFee (Fin x) PPM_RESOLUTION = Inf false) /\
  (x < 0 -> addFee (Fin x) PPM_RESOLUTION = Inf true) /\
  (x == 0 -> addFee (Fin x) PPM_RESOLUTION = NaN) /\
  subtractFee (Fin x) PPM_RESOLUTION = Fin 0.
Proof.
  assert (Hp : 0 < inject_Z PPM_RESOLUTION) by reflexivity.
  assert (E : addFee (Fin x) PPM_RESOLUTION =
              if Dec.iszero (x * inject_Z PPM_RESOLUTION) then NaN
              else Inf (Dec.isneg (x * inject_Z PPM_RESOLUTION))).
  { unfold addFee. cbn [Dec.mul Dec.times Dec.div].
    change (Dec.iszero (inject_Z (PPM_RESOLUTION - PPM_RESOLUTION)))
      with true.
    destruct (Dec.iszero (x * inject_Z PPM_RESOLUTION)); reflexivity. }
  rewrite E. split; [|split; [|split]].
  - intros H. assert (0 < x * inject_Z PPM_RESOLUTION)
      by (apply Qmult_lt_0_compat; assumption).
    rewrite (proj2 (iszero_false _)) by lra.
    rewrite (proj2 (isneg_false _)) by lra. reflexivity.
  - intros H. assert (0 < - x * inject_Z PPM_RESOLUTION)
      by (apply Qmult_lt_0_compat; lra).
    assert (x * inject_Z PPM_RESOLUTION < 0).
    { setoid_replace (x * inject_Z PPM_RESOLUTION)
        with (- (- x * inject_Z PPM_RESOLUTION)) by ring. lra. }
    rewrite (proj2 (iszero_false _)) by lra.
    rewrite (proj2 (isneg_true _)) by lra. reflexivity.
  - intros H. rewrite (proj2 (iszero_true _)); [reflexivity|].
    rewrite H. ring.
  - rewrite subtractFee_value. change (Fin 0) with (Fin (inject_Z 0)).
    do 2 f_equal.
    rewrite <- (Qfloor_Z 0). apply Qfloor_comp.
    change (inject_Z (PPM_RESOLUTION - PPM_RESOLUTION)) with 0.
    field. lra.
Qed.

Lemma fee_of_whole_resolution_witness :
  0 < 1000 /\ addFee (Fin 1000) PPM_RESOLUTION = Inf false.
Proof.
  assert (H : 0 < 1000) by reflexivity.
  split; [exact H|].
  exact (proj1 (fee_of_whole_resolution 1000) H).
Defined.

(** ** Rate normalizer *)

Lemma times_pow10_inf (s : bool) (z : Z) :
  Dec.times (Inf s) (Fin (10 ^ z)) = Inf s.
Proof.
  cbn [Dec.times]. pose proof (pow10_pos z) as H.
  rewrite (proj2 (iszero_false _)) by lra.
  rewrite (proj2 (isneg_false _)) by lra.
  destruct s; reflexivity.
Qed.

Lemma pow10_plus (a b : Z) : 10 ^ a * 10 ^ b == 10 ^ (a + b).
Proof. symmetry. apply Qpower_plus. discriminate. Qed.

(** X6. Rescaling composes: normalizing from decimals [a] to [b] and then
    from [b] to [c] is normalizing from [a] to [c], for every amount, finite
    or not; with equal decimals the amount is only printed. *)
Theorem normalizeRate_composes (amount : Decimal) (a b c : Z) :
  normalizeRate (normalizeRate amount a b) b c = normalizeRate amount a c /\
  normalizeRate amount a a = Dec.toFixed amount.
Proof.
  destruct amount as [x|s|].
  - split.
    + rewrite !normalizeRate_value. f_equal. apply Qred_complete.
      rewrite Qred_correct, <- Qmult_assoc, pow10_plus.
      replace (a - b + (b - c))%Z with (a - c)%Z by lia. reflexivity.
    + rewrite normalizeRate_value. cbn [Dec.toFixed]. f_equal.
      apply Qred_complete. rewrite Z.sub_diag. apply Qmult_1_r.
  - unfold normalizeRate, tenPow. rewrite !times_pow10_inf.
    cbn [Dec.toFixed]. rewrite times_pow10_inf. split; reflexivity.
  - split; reflexivity.
Qed.

(** X7. For an amount that reads as a nonzero number the inverted rate is
    the reciprocal of the direct rate taken with the same decimals. *)
Theorem normalizeInvertedRate_reciprocal (x : Q) (d0 d1 : Z)
    (Hx : Dec.numberIsZero (Fin x) = false) :
  normalizeInvertedRate (Fin x) d0 d1 =
  Dec.toFixed (Dec.div (Fin 1) (normalizeRate (Fin x) d0 d1)).
Proof.
  pose proof (numberIsZero_false_nonzero x Hx) as Hnz.
  pose proof (pow10_pos (d0 - d1)) as Hp.
  rewrite (normalizeInvertedRate_value _ _ _ Hx), normalizeRate_value.
  assert (Hr : ~ Qred (x * 10 ^ (d0 - d1)) == 0).
  { rewrite Qred_correct. intros H. apply Qmult_integral in H.
    destruct H; [contradiction | lra]. }
  rewrite (div_fin _ _ Hr). cbn [Dec.toFixed]. f_equal.
  apply Qred_complete. rewrite Qred_correct.
  replace (d1 - d0)%Z with (- (d0 - d1))%Z by lia.
  rewrite Qpower_opp. field. split; [lra | exact Hnz].
Qed.

Lemma normalizeInvertedRate_reciprocal_witness :
  Dec.numberIsZero (Fin 2000) = false /\
  normalizeInvertedRate (Fin 2000) 6 18 =
  Dec.toFixed (Dec.div (Fin 1) (normalizeRate (Fin 2000) 6 18)).
Proof.
  assert (H : Dec.numberIsZero (Fin 2000) = false) by (vm_compute; reflexivity).
  split; [exact H|]. exact (normalizeInvertedRate_reciprocal 2000 6 18 H).
Defined.

Lemma normalizeInvertedRate_finite (x : Q) (d0 d1 : Z) :
  Dec.finite (normalizeInvertedRate (Fin x) d0 d1).
Proof.
  destruct (Dec.numberIsZero (Fin x)) eqn:E.
  - rewrite (normalizeInvertedRate_zero _ _ _ E). exact I.
  - rewrite (normalizeInvertedRate_value _ _ _ E). exact I.
Qed.

Lemma normalizeInvertedRate_nonneg (x : Q) (d0 d1 : Z) :
  0 <= x -> Dec.le (Fin 0) (normalizeInvertedRate (Fin x) d0 d1).
Proof.
  intros Hx. destruct (Dec.numberIsZero (Fin x)) eqn:E.
  - rewrite (normalizeInvertedRate_zero _ _ _ E). cbn [Dec.le]. lra.
  - rewrite (normalizeInvertedRate_value _ _ _ E). cbn [Dec.le].
    rewrite Qred_correct. apply Qmult_le_0_compat.
    + unfold Qdiv. rewrite Qmult_1_l. apply Qinv_le_0_compat, Hx.
    + apply Qlt_le_weak, pow10_pos.
Qed.


(** X8. The inverted rate never divides by zero: for every finite amount
    the result is finite, and not negative when the amount is not negative;
    an infinite amount gives "0" and NaN gives NaN. *)
Theorem normalizeInvertedRate_total (x : Q) (s : bool) (d0 d1 : Z) :
  Dec.finite (normalizeInvertedRate (Fin x) d0 d1) /\
  (0 <= x -> Dec.le (Fin 0) (normalizeInvertedRate (Fin x) d0 d1)) /\
  normalizeInvertedRate (Inf s) d0 d1 = Fin 0 /\
  normalizeInvertedRate NaN d0 d1 = NaN.
Proof.
  split; [|split; [|split]].
  - apply normalizeInvertedRate_finite.
  - apply normalizeInvertedRate_nonneg.
  - unfold normalizeInvertedRate.
    cbn [Dec.numberIsZero Dec.div Dec.times tenPow Dec.toFixed].
    change (Fin 0) with (Fin (Qred 0)). f_equal;
      try (apply Qred_complete; ring).
  - reflexivity.
Qed.

Lemma normalizeInvertedRate_total_witness :
  0 <= 2000 /\ Dec.le (Fin 0) (normalizeInvertedRate (Fin 2000) 6 18).
Proof.
  assert (H : 0 <= 2000) by discriminate.
  split; [exact H|].
  exact (proj1 (proj2 (normalizeInvertedRate_total 2000 false 6 18)) H).
Defined.

(** ** Strategy codec adapter *)

Lemma parseUnits_formatUnits (n d : Z) (x : Q) :
  formatUnits n d = Fin x -> parseUnits x d = n.
Proof.
  unfold formatUnits. intros H.
  assert (Hx : x = Qred (inject_Z n / 10 ^ d)) by congruence.
  subst x. clear H. unfold parseUnits.
  pose proof (pow10_pos d) as Hp.
  assert (E : Qred (inject_Z n / 10 ^ d) * 10 ^ d == inject_Z n)
    by (rewrite Qred_correct; field; lra).
  rewrite (Qtruncate_compat _ _ E). apply Qtruncate_Z.
Qed.

Section AdapterFacts.

Context {EncodedOrder EncodedStr : Type}.
Variable encodeOrder : DecodedOrder -> EncodedOrder.
Variable decodeOrder : EncodedOrder -> DecodedOrder.
Variable encodedStrategyBNToStr : EncodedStrategy.t EncodedOrder -> EncodedStr.
Variable fetchDecimals : string -> string + Z.

(** X9. Re-tagging round trips.  When decoding an order undoes encoding
    it, decoding the stored form of an encoded strategy gives back the
    strategy, under the id it was stored with and beside its encoded form;
    when encoding undoes decoding, encoding a decoded strategy gives back
    the encoded strategy it came from. *)
Theorem strategy_retagging_roundtrips :
  ((forall o, decodeOrder (encodeOrder o) = o) ->
   forall (i : Z) (s : DecodedStrategy.t),
     let e := EncodedStrategy.stored i (encodeStrategy encodeOrder s) in
     asDecodedStrategy (decodeStrategy decodeOrder e) = s /\
     IdentifiedStrategy.id (decodeStrategy decodeOrder e) = i /\
     IdentifiedStrategy.encoded (decodeStrategy decodeOrder e) = e) /\
  ((forall e, encodeOrder (decodeOrder e) = e) ->
   forall e : EncodedStrategy.t EncodedOrder,
     EncodedStrategy.stored (EncodedStrategy.id e)
       (encodeStrategy encodeOrder
          (asDecodedStrategy (decodeStrategy decodeOrder e))) = e).
Proof.
  split.
  - intros H i [t0 t1 o0 o1]. cbv zeta.
    unfold asDecodedStrategy, decodeStrategy, encodeStrategy,
      EncodedStrategy.stored. cbn. rewrite !H. repeat split.
  - intros H [i t0 t1 o0 o1].
    unfold asDecodedStrategy, decodeStrategy, encodeStrategy,
      EncodedStrategy.stored. cbn. rewrite !H. reflexivity.
Qed.

(** X10. A failed decimals lookup aborts the parse with the error of that
    lookup, the base token's first; the parse succeeds exactly when both
    lookups do. *)
Theorem parseStrategy_lookup_errors
    (strategy : IdentifiedStrategy.t EncodedOrder) :
  let token0 := IdentifiedStrategy.token0 strategy in
  let token1 := IdentifiedStrategy.token1 strategy in
  let r := parseStrategy encodedStrategyBNToStr fetchDecimals strategy in
  (forall e, r = inl e <->
     fetchDecimals token0 = inl e \/
     (exists d0, fetchDecimals token0 = inr d0 /\
                 fetchDecimals token1 = inl e)) /\
  ((exists st, r = inr st) <->
   exists d0 d1, fetchDecimals token0 = inr d0 /\
                 fetchDecimals token1 = inr d1).
Proof.
  intros token0 token1 r. subst r. unfold parseStrategy. fold token0 token1.
  destruct (fetchDecimals token0) as [e0|d0];
    [|destruct (fetchDecimals token1) as [e1|d1]]; cbn.
  - split.
    + intros e. split.
      * intros H. left. congruence.
      * intros [H|(d & H & _)]; congruence.
    + split.
      * intros [st H]. discriminate H.
      * intros (d & _ & H & _). discriminate H.
  - split.
    + intros e. split.
      * intros H. right. exists d0. split; congruence.
      * intros [H|(d & _ & H)]; congruence.
    + split.
      * intros [st H]. discriminate H.
      * intros (d & d' & _ & H). discriminate H.
  - split.
    + intros e. split.
      * intros H. discriminate H.
      * intros [H|(d & _ & H)]; discriminate H.
    + split.
      * intros _. exists d0, d1. split; reflexivity.
      * intros _. eexists. reflexivity.
Qed.

(** With both lookups done the parse is the record of the normalized
    rates and formatted liquidities. *)
Lemma parseStrategy_succeeds (strategy : IdentifiedStrategy.t EncodedOrder)
    (d0 d1 : Z) :
  fetchDecimals (IdentifiedStrategy.token0 strategy) = inr d0 ->
  fetchDecimals (IdentifiedStrategy.token1 strategy) = inr d1 ->
  parseStrategy encodedStrategyBNToStr fetchDecimals strategy =
  inr (Strategy.mk
         (IdentifiedStrategy.id strategy)
         (IdentifiedStrategy.token0 strategy)
         (IdentifiedStrategy.token1 strategy)
         (normalizeRate (lowestRate (IdentifiedStrategy.order1 strategy))
            d0 d1)
         (normalizeRate (marginalRate (IdentifiedStrategy.order1 strategy))
            d0 d1)
         (normalizeRate (highestRate (IdentifiedStrategy.order1 strategy))
            d0 d1)
         (formatUnits (liquidity (IdentifiedStrategy.order1 strategy)) d1)
         (normalizeInvertedRate
            (highestRate (IdentifiedStrategy.order0 strategy)) d1 d0)
         (normalizeInvertedRate
            (marginalRate (IdentifiedStrategy.order0 strategy)) d1 d0)
         (normalizeInvertedRate
            (lowestRate (IdentifiedStrategy.order0 strategy)) d1 d0)
         (formatUnits (liquidity (IdentifiedStrategy.order0 strategy)) d0)
         (encodedStrategyBNToStr (IdentifiedStrategy.encoded strategy))).
Proof.
  intros H0 H1. unfold parseStrategy. rewrite H0, H1. reflexivity.
Qed.

(** X11. Parsing keeps each side in order: when both lookups succeed, the
    rates of [order1] are ordered, and the rates of [order0] are ordered
    with a lowest rate that is not negative and reads as a nonzero number,
    the buy prices and the sell prices come out ordered low, marginal,
    high; the sell side is read in reverse, its low price from the highest
    rate. *)
Theorem parseStrategy_keeps_order (id liq0 liq1 d0 d1 : Z)
    (t0 t1 : string) (l0 m0 h0 l1 m1 h1 : Q)
    (enc : EncodedStrategy.t EncodedOrder)
    (Hd0 : fetchDecimals t0 = inr d0) (Hd1 : fetchDecimals t1 = inr d1)
    (Hbuy : l1 <= m1 /\ m1 <= h1)
    (Hsell : 0 <= l0 /\ l0 <= m0 /\ m0 <= h0)
    (Hread : Dec.numberIsZero (Fin l0) = false) :
  exists st,
    parseStrategy encodedStrategyBNToStr fetchDecimals
      (strategyOfRates id t0 t1 liq0 l0 m0 h0 liq1 l1 m1 h1 enc) = inr st /\
    Dec.le (Strategy.buyPriceLow st) (Strategy.buyPriceMarginal st) /\
    Dec.le (Strategy.buyPriceMarginal st) (Strategy.buyPriceHigh st) /\
    Dec.le (Strategy.sellPriceLow st) (Strategy.sellPriceMarginal st) /\
    Dec.le (Strategy.sellPriceMarginal st) (Strategy.sellPriceHigh st).
Proof.
  unfold parseStrategy, strategyOfRates.
  cbn [IdentifiedStrategy.id IdentifiedStrategy.token0
       IdentifiedStrategy.token1 IdentifiedStrategy.order0
       IdentifiedStrategy.order1 IdentifiedStrategy.encoded].
  rewrite Hd0, Hd1. eexists. split; [reflexivity|].
  cbn [Strategy.buyPriceLow Strategy.buyPriceMarginal Strategy.buyPriceHigh
       Strategy.sellPriceLow Strategy.sellPriceMarginal
       Strategy.sellPriceHigh lowestRate marginalRate highestRate].
  destruct Hbuy as [Hb1 Hb2], Hsell as (Hs0 & Hs1 & Hs2).
  assert (Hm : Dec.numberIsZero (Fin m0) = false).
  { apply numberIsZero_false. apply numberIsZero_false in Hread.
    rewrite Qabs_pos in Hread by lra. rewrite Qabs_pos by lra. lra. }
  repeat split.
  - apply normalizeRate_monotone, Hb1.
  - apply normalizeRate_monotone, Hb2.
  - apply normalizeInvertedRate_antitone; [lra | exact Hm | exact Hs2].
  - apply normalizeInvertedRate_antitone; assumption.
Qed.

(** X12. Parsing finite rates gives finite prices and budgets, whatever
    the rates are: a rate of [order0] that is zero becomes the price "0"
    and is not divided by. *)
Theorem parseStrategy_finite (id liq0 liq1 d0 d1 : Z)
    (t0 t1 : string) (l0 m0 h0 l1 m1 h1 : Q)
    (enc : EncodedStrategy.t EncodedOrder)
    (Hd0 : fetchDecimals t0 = inr d0) (Hd1 : fetchDecimals t1 = inr d1) :
  exists st,
    parseStrategy encodedStrategyBNToStr fetchDecimals
      (strategyOfRates id t0 t1 liq0 l0 m0 h0 liq1 l1 m1 h1 enc) = inr st /\
    Dec.finite (Strategy.buyPriceLow st) /\
    Dec.finite (Strategy.buyPriceMarginal st) /\
    Dec.finite (Strategy.buyPriceHigh st) /\
    Dec.finite (Strategy.buyBudget st) /\
    Dec.finite (Strategy.sellPriceLow st) /\
    Dec.finite (Strategy.sellPriceMarginal st) /\
    Dec.finite (Strategy.sellPriceHigh st) /\
    Dec.finite (Strategy.sellBudget st) /\
    (h0 == 0 -> Strategy.sellPriceLow st = Fin 0) /\
    (m0 == 0 -> Strategy.sellPriceMarginal st = Fin 0) /\
    (l0 == 0 -> Strategy.sellPriceHigh st = Fin 0).
Proof.
  unfold parseStrategy, strategyOfRates.
  cbn [IdentifiedStrategy.id IdentifiedStrategy.token0
       IdentifiedStrategy.token1 IdentifiedStrategy.order0
       IdentifiedStrategy.order1 IdentifiedStrategy.encoded].
  rewrite Hd0, Hd1. eexists. split; [reflexivity|].
  cbn [Strategy.buyPriceLow Strategy.buyPriceMarginal Strategy.buyPriceHigh
       Strategy.sellPriceLow Strategy.sellPriceMarginal
       Strategy.sellPriceHigh Strategy.buyBudget Strategy.sellBudget
       lowestRate marginalRate highestRate liquidity].
  repeat split; try apply normalizeInvertedRate_finite;
    intros H; apply normalizeInvertedRate_zero, numberIsZero_zero, H.
Qed.

(** X13. Building what was parsed gives the orders back.  When both
    lookups succeed, the liquidities and the rates of [order1] are not
    negative, both sides are ordered and the rates of [order0] survive the
    inversion, the parsed prices and budgets are finite, they pass the
    checks of the builder called with the looked-up decimals, and the built
    orders have the liquidities and, printed canonically, the rates that
    were parsed. *)
Theorem buildStrategyObject_parseStrategy_roundtrip
    (id liq0 liq1 d0 d1 : Z)
    (t0 t1 : string) (l0 m0 h0 l1 m1 h1 : Q)
    (enc : EncodedStrategy.t EncodedOrder)
    (Hd0 : fetchDecimals t0 = inr d0) (Hd1 : fetchDecimals t1 = inr d1)
    (Hliq : (0 <= liq0)%Z /\ (0 <= liq1)%Z)
    (Hbuy : 0 <= l1 /\ l1 <= m1 /\ m1 <= h1)
    (Hsell : 0 < l0 /\ l0 <= m0 /\ m0 <= h0)
    (Hlow : survivesInversion d0 d1 l0)
    (Hmarginal : survivesInversion d0 d1 m0)
    (Hhigh : survivesInversion d0 d1 h0) :
  exists bpl bpm bph bb spl spm sph sb : Q,
    parseStrategy encodedStrategyBNToStr fetchDecimals
      (strategyOfRates id t0 t1 liq0 l0 m0 h0 liq1 l1 m1 h1 enc) =
    inr (Strategy.mk id t0 t1
           (Fin bpl) (Fin bpm) (Fin bph) (Fin bb)
           (Fin spl) (Fin spm) (Fin sph) (Fin sb)
           (encodedStrategyBNToStr enc)) /\
    buildStrategyObject t0 t1 d0 d1 bpl bpm bph bb spl spm sph sb =
    inr (DecodedStrategy.mk t0 t1
           {| liquidity := liq0;
              lowestRate := Dec.toFixed (Fin l0);
              highestRate := Dec.toFixed (Fin h0);
              marginalRate := Dec.toFixed (Fin m0) |}
           {| liquidity := liq1;
              lowestRate := Dec.toFixed (Fin l1);
              highestRate := Dec.toFixed (Fin h1);
              marginalRate := Dec.toFixed (Fin m1) |}).
Proof.
  destruct Hlow as [Hl1 Hl2], Hmarginal as [Hm1 Hm2], Hhigh as [Hh1 Hh2].
  destruct Hliq as [Hq0 Hq1], Hbuy as (Hb0 & Hb1 & Hb2),
    Hsell as (Hs0 & Hs1 & Hs2).
  pose proof (pow10_pos (d0 - d1)) as Hp.
  pose proof (pow10_pos d0) as Hp0. pose proof (pow10_pos d1) as Hp1.
  exists (Qred (l1 * 10 ^ (d0 - d1))), (Qred (m1 * 10 ^ (d0 - d1))),
    (Qred (h1 * 10 ^ (d0 - d1))), (Qred (inject_Z liq1 / 10 ^ d1)),
    (Qred (1 / h0 * 10 ^ (d0 - d1))), (Qred (1 / m0 * 10 ^ (d0 - d1))),
    (Qred (1 / l0 * 10 ^ (d0 - d1))), (Qred (inject_Z liq0 / 10 ^ d0)).
  split.
  - rewrite (parseStrategy_succeeds _ d0 d1) by assumption.
    unfold strategyOfRates.
    cbn [IdentifiedStrategy.id IdentifiedStrategy.token0
         IdentifiedStrategy.token1 IdentifiedStrategy.order0
         IdentifiedStrategy.order1 IdentifiedStrategy.encoded
         lowestRate marginalRate highestRate liquidity].
    rewrite !normalizeRate_value.
    rewrite !normalizeInvertedRate_value by assumption.
    reflexivity.
  - assert (Hinv : forall x, 0 < x -> 0 < 1 / x * 10 ^ (d0 - d1)).
    { intros x Hx. apply Qmult_lt_0_compat; [|exact Hp].
      unfold Qdiv. rewrite Qmult_1_l. apply Qinv_lt_0_compat, Hx. }
    assert (Hanti : forall x y, 0 < x -> x <= y ->
              1 / y * 10 ^ (d0 - d1) <= 1 / x * 10 ^ (d0 - d1)).
    { intros x y Hx Hxy. apply Qmult_le_compat_r; [|lra].
      unfold Qdiv. rewrite !Qmult_1_l. apply Qinv_le_contravar; assumption. }
    assert (Hmono : forall x y, x <= y ->
              x * 10 ^ (d0 - d1) <= y * 10 ^ (d0 - d1)).
    { intros x y Hxy. apply Qmult_le_compat_r; lra. }
    assert (Hunit : forall n d, (0 <= n)%Z -> 0 <= inject_Z n / 10 ^ d).
    { intros n d Hn. apply Qle_shift_div_l; [apply pow10_pos|].
      rewrite Qmult_0_l. apply inject_Z_le_iff with (a := 0%Z). exact Hn. }
    rewrite buildStrategyObject_succeeds.
    + f_equal. cbn [createOrders Orders.order0 Orders.order1].
      rewrite <- (normalizeInvertedRate_value l0 d1 d0 Hl1),
        <- (normalizeInvertedRate_value m0 d1 d0 Hm1),
        <- (normalizeInvertedRate_value h0 d1 d0 Hh1).
      rewrite <- (normalizeRate_value l1 d0 d1),
        <- (normalizeRate_value m1 d0 d1), <- (normalizeRate_value h1 d0 d1).
      rewrite !normalizeRate_roundtrip.
      rewrite !normalizeInvertedRate_roundtrip by assumption.
      rewrite (parseUnits_formatUnits liq0 d0) by reflexivity.
      rewrite (parseUnits_formatUnits liq1 d1) by reflexivity.
      reflexivity.
    + unfold somePriceNegative. rewrite !Qred_correct.
      pose proof (Hmono 0 l1 Hb0). pose proof (Hmono l1 m1 Hb1).
      pose proof (Hmono m1 h1 Hb2).
      pose proof (Hinv l0 Hs0). pose proof (Hinv m0 ltac:(lra)).
      pose proof (Hinv h0 ltac:(lra)). lra.
    + unfold someSideMisordered. rewrite !Qred_correct.
      pose proof (Hmono l1 m1 Hb1). pose proof (Hmono m1 h1 Hb2).
      pose proof (Hanti l0 m0 Hs0 Hs1).
      pose proof (Hanti m0 h0 ltac:(lra) Hs2). lra.
    + unfold someBudgetNegative. rewrite !Qred_correct.
      pose proof (Hunit liq0 d0 Hq0). pose proof (Hunit liq1 d1 Hq1). lra.
Qed.

End AdapterFacts.

Lemma strategy_retagging_roundtrips_witness :
  let s := DecodedStrategy.mk "base" "quote"
             (mkDecodedOrder 5 (Fin 1) (Fin 3) (Fin 2))
             (mkDecodedOrder 7 (Fin 4) (Fin 6) (Fin 5)) in
  asDecodedStrategy
    (decodeStrategy identityCodec
       (EncodedStrategy.stored 9 (encodeStrategy identityCodec s))) = s.
Proof.
  intros s.
  destruct (strategy_retagging_roundtrips identityCodec identityCodec)
    as [H _].
  exact (proj1 (H (fun o => eq_refl) 9%Z s)).
Defined.

Lemma parseStrategy_keeps_order_witness :
  exists st,
    parseStrategy (fun e => e) (twoTokenDecimals "base" 18 6)
      (strategyOfRates 7 "base" "quote" 5 1 2 3 7 4 5 6
         (EncodedStrategy.mk 7 "base" "quote" tt tt)) = inr st /\
    Dec.le (Strategy.buyPriceLow st) (Strategy.buyPriceMarginal st) /\
    Dec.le (Strategy.sellPriceLow st) (Strategy.sellPriceMarginal st).
Proof.
  destruct (parseStrategy_keeps_order (fun e => e)
              (twoTokenDecimals "base" 18 6) 7 5 7 18 6 "base" "quote"
              1 2 3 4 5 6 (EncodedStrategy.mk 7 "base" "quote" tt tt))
    as (st & Hst & H1 & _ & H3 & _).
  - reflexivity.
  - reflexivity.
  - split; discriminate.
  - split; [discriminate | split; discriminate].
  - vm_compute. reflexivity.
  - exists st. repeat split; assumption.
Defined.

Lemma parseStrategy_finite_witness :
  exists st,
    parseStrategy (fun e => e) (twoTokenDecimals "base" 18 6)
      (strategyOfRates 7 "base" "quote" 5 0 0 0 7 4 5 6
         (EncodedStrategy.mk 7 "base" "quote" tt tt)) = inr st /\
    Strategy.sellPriceLow st = Fin 0 /\
    Dec.finite (Strategy.sellPriceHigh st).
Proof.
  destruct (parseStrategy_finite (fun e => e)
              (twoTokenDecimals "base" 18 6) 7 5 7 18 6 "base" "quote"
              0 0 0 4 5 6 (EncodedStrategy.mk 7 "base" "quote" tt tt))
    as (st & Hst & _ & _ & _ & _ & _ & _ & H7 & _ & H9 & _).
  - reflexivity.
  - reflexivity.
  - exists st. split; [exact Hst|]. split; [apply H9; reflexivity | exact H7].
Defined.

Lemma buildStrategyObject_parseStrategy_roundtrip_witness :
  exists bpl bpm bph bb spl spm sph sb : Q,
    parseStrategy (fun e => e) (twoTokenDecimals "base" 18 6)
      (strategyOfRates 7 "base" "quote" 5 1 2 3 7 4 5 6
         (EncodedStrategy.mk 7 "base" "quote" tt tt)) =
    inr (Strategy.mk 7 "base" "quote"
           (Fin bpl) (Fin bpm) (Fin bph) (Fin bb)
           (Fin spl) (Fin spm) (Fin sph) (Fin sb)
           (EncodedStrategy.mk 7 "base" "quote" tt tt)) /\
    buildStrategyObject "base" "quote" 18 6 bpl bpm bph bb spl spm sph sb =
    inr (DecodedStrategy.mk "base" "quote"
           (mkDecodedOrder 5 (Fin 1) (Fin 3) (Fin 2))
           (mkDecodedOrder 7 (Fin 4) (Fin 6) (Fin 5))).
Proof.
  apply (buildStrategyObject_parseStrategy_roundtrip (fun e => e)
           (twoTokenDecimals "base" 18 6) 7 5 7 18 6 "base" "quote"
           1 2 3 4 5 6 (EncodedStrategy.mk 7 "base" "quote" tt tt)).
  - reflexivity.
  - reflexivity.
  - split; discriminate.
  - split; [discriminate | split; discriminate].
  - split; [reflexivity | split; discriminate].
  - split; vm_compute; reflexivity.
  - split; vm_compute; reflexivity.
  - split; vm_compute; reflexivity.
Defined.

(** ** Order builder *)




(** X15. The rates of both orders depend on the two decimals only through
    their difference: shifting both by the same amount leaves all six rates
    as they are. *)
Theorem createOrders_rates_decimals_difference (b q k : Z)
    (bpl bpm bph bb spl spm sph sb : Q) :
  let o := createOrders b q bpl bpm bph bb spl spm sph sb in
  let o' := createOrders (b + k) (q + k) bpl bpm bph bb spl spm sph sb in
  lowestRate (Orders.order0 o') = lowestRate (Orders.order0 o) /\
  marginalRate (Orders.order0 o') = marginalRate (Orders.order0 o) /\
  highestRate (Orders.order0 o') = highestRate (Orders.order0 o) /\
  lowestRate (Orders.order1 o') = lowestRate (Orders.order1 o) /\
  marginalRate (Orders.order1 o') = marginalRate (Orders.order1 o) /\
  highestRate (Orders.order1 o') = highestRate (Orders.order1 o).
Proof.
  cbv zeta.
  cbn [createOrders Orders.order0 Orders.order1
       lowestRate marginalRate highestRate].
  unfold normalizeInvertedRate, normalizeRate, tenPow.
  replace (b + k - (q + k))%Z with (b - q)%Z by lia.
  replace (q + k - (b + k))%Z with (q - b)%Z by lia.
  repeat split.
Qed.

(** ** Overlapping distribution solver *)

Lemma marginal_prices_closed (bpl sph m sp : Q) :
  ~ sp == 100 -> ~ bpl == sph ->
  Reference.buyPriceMarginal bpl sph m sp ==
    m - Reference.spread bpl sph sp / 2 /\
  Reference.sellPriceMarginal bpl sph m sp ==
    m + Reference.spread bpl sph sp / 2.
Proof.
  intros Hsp Hb.
  assert (Hr : ~ Reference.buyPriceHigh bpl sph sp - bpl == 0).
  { rewrite buyPriceRange_zero_iff. tauto. }
  unfold Reference.buyPriceMarginal, Reference.sellPriceMarginal,
    Reference.sellHighBudgetRatio, Reference.buyLowBudgetRatio,
    Reference.buyLowRange, Reference.sellPriceLow in *.
  unfold Reference.buyPriceHigh in *. revert Hr.
  generalize (Reference.spread bpl sph sp). intros s Hr.
  split; field; exact Hr.
Qed.

(** X16. Whenever the buy range is not empty, whatever the budget and the
    position of the market price, the inner bounds are the outer bounds
    moved in by the spread and the two marginal prices are the market price
    minus and plus half the spread, each trimmed to the quote decimals;
    with a zero spread the inner bounds are the outer bounds and both
    marginal prices are the market price. *)
Theorem calculateOverlappingDistribution_prices
    (Qsqrt : Q -> Q) (b q : Z) (bpl sph m sp bud : Q)
    (Hspread : ~ sp == 100) (Hbounds : ~ bpl == sph) :
  let s := Reference.spread bpl sph sp in
  let price x := Dec.toFixed (Fin (truncate_to q x)) in
  exists r,
    calculateOverlappingDistribution Qsqrt b q bpl sph m sp bud = inr r /\
    OverlappingDistributionResult.buyPriceHigh r = price (sph - s) /\
    OverlappingDistributionResult.sellPriceLow r = price (bpl + s) /\
    OverlappingDistributionResult.buyPriceMarginal r = price (m - s / 2) /\
    OverlappingDistributionResult.sellPriceMarginal r = price (m + s / 2) /\
    (sp == 0 ->
     OverlappingDistributionResult.buyPriceHigh r = price sph /\
     OverlappingDistributionResult.sellPriceLow r = price bpl /\
     OverlappingDistributionResult.buyPriceMarginal r = price m /\
     OverlappingDistributionResult.sellPriceMarginal r = price m).
Proof.
  intros s price.
  assert (Hrange : ~ Reference.buyPriceHigh bpl sph sp - bpl == 0).
  { rewrite buyPriceRange_zero_iff. tauto. }
  destruct (marginal_prices_closed bpl sph m sp Hspread Hbounds)
    as [Hbm Hsm].
  fold s in Hbm, Hsm.
  unfold calculateOverlappingDistribution.
  cbn [Dec.minus Dec.plus Dec.neg Dec.mul Dec.times].
  rewrite (div_fin _ 100) by discriminate.
  cbn [Dec.minus Dec.plus Dec.neg Dec.mul Dec.times].
  rewrite (div_fin _ 2) by discriminate.
  cbn [Dec.minus Dec.plus Dec.neg Dec.mul Dec.times].
  rewrite (div_fin _ (sph + - ((sph + - bpl) * sp / 100) + - bpl))
    by exact Hrange.
  cbn [Dec.minus Dec.plus Dec.neg Dec.mul Dec.times].
  eexists. split; [reflexivity|].
  cbn [OverlappingDistributionResult.buyPriceHigh
       OverlappingDistributionResult.buyPriceMarginal
       OverlappingDistributionResult.sellPriceLow
       OverlappingDistributionResult.sellPriceMarginal].
  assert (H1 : trimDecimal (Dec.toString (Fin (sph + - ((sph + - bpl) * sp / 100)))) q
               = price (sph - s)) by (apply trim_toString).
  assert (H2 : trimDecimal (Dec.toString (Fin (bpl + (sph + - bpl) * sp / 100))) q
               = price (bpl + s)) by (apply trim_toString).
  rewrite H1, H2.
  rewrite (trim_toString_compat _ (m - s / 2)) by exact Hbm.
  rewrite (trim_toString_compat _ (m + s / 2)) by exact Hsm.
  fold (price (m - s / 2)) (price (m + s / 2)).
  split; [reflexivity|]. split; [reflexivity|].
  split; [reflexivity|]. split; [reflexivity|].
  intros H0. assert (Hs : s == 0).
  { subst s. unfold Reference.spread, Reference.totalRange.
    rewrite H0. field. }
  subst price. cbn beta. cbn [Dec.toFixed].
  rewrite (truncate_to_compat q (sph - s) sph) by (rewrite Hs; ring).
  rewrite (truncate_to_compat q (bpl + s) bpl) by (rewrite Hs; ring).
  rewrite (truncate_to_compat q (m - s / 2) m) by (rewrite Hs; field).
  rewrite (truncate_to_compat q (m + s / 2) m) by (rewrite Hs; field).
  repeat split.
Qed.

Lemma calculateOverlappingDistribution_prices_witness :
  exists r,
    calculateOverlappingDistribution (sqrt_digits 20) 18 6
      1800 2200 2000 (1 # 10) 1000 = inr r /\
    OverlappingDistributionResult.buyPriceMarginal r = Fin (9999 # 5) /\
    OverlappingDistributionResult.sellPriceMarginal r = Fin (10001 # 5).
Proof.
  destruct (calculateOverlappingDistribution_prices (sqrt_digits 20) 18 6
              1800 2200 2000 (1 # 10) 1000)
    as (r & Hr & _ & _ & H3 & H4 & _).
  - intros H. discriminate H.
  - intros H. discriminate H.
  - exists r. split; [exact Hr|].
    split; [rewrite H3 | rewrite H4]; vm_compute; reflexivity.
Defined.

Lemma truncate_to_zero (d : Z) (x : Q) :
  x == 0 -> Dec.toFixed (Fin (truncate_to d x)) = Fin 0.
Proof.
  intros H. pose proof (pow10_pos d) as Hp. cbn [Dec.toFixed].
  change (Fin 0) with (Fin (Qred 0)). f_equal. apply Qred_complete.
  unfold truncate_to.
  rewrite (Qtruncate_compat (x * 10 ^ d) (inject_Z 0)) by (rewrite H; ring).
  rewrite Qtruncate_Z. field. lra.
Qed.

(** X17. With the market price at the midpoint of non-degenerate outer
    bounds whose product is positive, half of each range is used and the
    sell budget is the buy budget divided by the square root of the
    product of the bounds, trimmed to the base decimals, whatever the
    spread. *)
Theorem calculateOverlappingDistribution_midpoint
    (Qsqrt : Q -> Q) (b q : Z) (bpl sph m sp bud : Q)
    (Hspread : ~ sp == 100) (Hbounds : ~ bpl == sph)
    (Hmid : m == (bpl + sph) / 2)
    (Hprod : 0 < bpl * sph)
    (Hgeo : ~ Qsqrt (bpl * sph) == 0) :
  Reference.buyLowBudgetRatio bpl sph m sp == 1 # 2 /\
  exists r,
    calculateOverlappingDistribution Qsqrt b q bpl sph m sp bud = inr r /\
    OverlappingDistributionResult.sellBudget r =
    Dec.toFixed (Fin (truncate_to b (bud / Qsqrt (bpl * sph)))).
Proof.
  assert (Hrange : ~ Reference.buyPriceHigh bpl sph sp - bpl == 0).
  { rewrite buyPriceRange_zero_iff. tauto. }
  assert (Hhalf : Reference.buyLowBudgetRatio bpl sph m sp == 1 # 2).
  { unfold Reference.buyLowBudgetRatio, Reference.buyLowRange.
    unfold Reference.buyPriceHigh in *. revert Hrange.
    generalize (Reference.spread bpl sph sp). intros s Hr.
    rewrite Hmid. field. exact Hr. }
  split; [exact Hhalf|].
  rewrite calculateOverlappingDistribution_value; try assumption.
  2: { rewrite Hhalf. discriminate. }
  eexists. split; [reflexivity|].
  cbn [OverlappingDistributionResult.sellBudget Dec.toFixed]. do 2 f_equal.
  apply truncate_to_compat.
  unfold Reference.sellBudget, Reference.sellOrderYint,
    Reference.buyOrderYint, Reference.sellHighBudgetRatio,
    Reference.geoMean.
  rewrite Hhalf. field. exact Hgeo.
Qed.

Lemma calculateOverlappingDistribution_midpoint_witness :
  exists r,
    calculateOverlappingDistribution (sqrt_digits 20) 18 6
      1800 2200 2000 (1 # 10) 1000 = inr r /\
    OverlappingDistributionResult.sellBudget r =
    Dec.toFixed
      (Fin (truncate_to 18 (1000 / sqrt_digits 20 (1800 * 2200)))).
Proof.
  destruct (calculateOverlappingDistribution_midpoint (sqrt_digits 20) 18 6
              1800 2200 2000 (1 # 10) 1000) as [_ H].
  - intros H. discriminate H.
  - intros H. discriminate H.
  - reflexivity.
  - reflexivity.
  - intros H. vm_compute in H. discriminate H.
  - exact H.
Defined.

(** X18. On a non-degenerate input a buy budget of zero gives the sell
    budget "0". *)
Theorem calculateOverlappingDistribution_zero_budget
    (Qsqrt : Q -> Q) (b q : Z) (bpl sph m sp bud : Q)
    (Hspread : ~ sp == 100) (Hbounds : ~ bpl == sph)
    (Hratio : ~ Reference.buyLowBudgetRatio bpl sph m sp == 0)
    (Hprod : 0 < bpl * sph)
    (Hgeo : ~ Qsqrt (bpl * sph) == 0)
    (Hbud : bud == 0) :
  exists r,
    calculateOverlappingDistribution Qsqrt b q bpl sph m sp bud = inr r /\
    OverlappingDistributionResult.sellBudget r = Fin 0.
Proof.
  rewrite calculateOverlappingDistribution_value; try assumption.
  eexists. split; [reflexivity|].
  cbn [OverlappingDistributionResult.sellBudget].
  apply truncate_to_zero.
  unfold Reference.sellBudget, Reference.sellOrderYint,
    Reference.buyOrderYint, Reference.geoMean.
  rewrite Hbud. field. split; assumption.
Qed.

Lemma calculateOverlappingDistribution_zero_budget_witness :
  exists r,
    calculateOverlappingDistribution (sqrt_digits 20) 18 6
      1800 2200 2000 (1 # 10) 0 = inr r /\
    OverlappingDistributionResult.sellBudget r = Fin 0.
Proof.
  apply (calculateOverlappingDistribution_zero_budget (sqrt_digits 20) 18 6
           1800 2200 2000 (1 # 10) 0).
  - intros H. discriminate H.
  - intros H. discriminate H.
  - intros H. vm_compute in H. discriminate H.
  - reflexivity.
  - intros H. vm_compute in H. discriminate H.
  - reflexivity.
Defined.





Lemma sqrt_zero (Qsqrt : Q -> Q) (x : Q) :
  x == 0 -> Dec.sqrt Qsqrt (Fin x) = Fin x.
Proof.
  intros H. cbn [Dec.sqrt]. rewrite (proj2 (iszero_true x) H). reflexivity.
Qed.

Lemma div_by_zero_not_finite (x : Decimal) (z : Q) :
  z == 0 -> ~ Dec.finite (Dec.div x (Fin z)).
Proof.
  intros H. apply iszero_true in H. destruct x as [p|s|]; cbn [Dec.div].
  - rewrite H. destruct (Dec.iszero p); intros F; exact F.
  - intros F. exact F.
  - intros F. exact F.
Qed.

Lemma times_not_finite_l (x y : Decimal) :
  ~ Dec.finite x -> ~ Dec.finite (Dec.times x y).
Proof.
  intros H. destruct x as [p|s|]; [exfalso; apply H; exact I| |].
  - destruct y as [v|s'|]; cbn [Dec.times].
    + destruct (Dec.iszero v); intros F; exact F.
    + intros F. exact F.
    + intros F. exact F.
  - intros F. exact F.
Qed.

Lemma trim_not_finite (x : Decimal) (d : Z) :
  ~ Dec.finite x -> ~ Dec.finite (trimDecimal (Dec.toString x) d).
Proof.
  intros H. destruct x as [p|s|]; [exfalso; apply H; exact I| |];
    intros F; exact F.
Qed.

(** X20. An outer bound of zero makes the divisor of step 9 zero: for
    every market price, spread and budget the call still returns, and its
    sell budget is never a finite number. *)
Theorem calculateOverlappingDistribution_zero_bound
    (Qsqrt : Q -> Q) (b q : Z) (bpl sph m sp bud : Q)
    (Hzero : bpl == 0 \/ sph == 0) :
  exists r,
    calculateOverlappingDistribution Qsqrt b q bpl sph m sp bud = inr r /\
    ~ Dec.finite (OverlappingDistributionResult.sellBudget r).
Proof.
  assert (Hprod : bpl * sph == 0).
  { destruct Hzero as [H|H]; rewrite H; ring. }
  unfold calculateOverlappingDistribution. cbv zeta.
  eexists. split; [reflexivity|].
  cbn [OverlappingDistributionResult.sellBudget].
  apply trim_not_finite. unfold Dec.mul at 1. apply times_not_finite_l.
  change (Dec.mul (Fin bpl) (Fin sph)) with (Fin (bpl * sph)).
  rewrite (sqrt_zero Qsqrt _ Hprod).
  apply div_by_zero_not_finite, Hprod.
Qed.

Lemma calculateOverlappingDistribution_zero_bound_witness :
  exists r,
    calculateOverlappingDistribution (sqrt_digits 20) 18 6
      0 2200 2000 (1 # 10) 1000 = inr r /\
    OverlappingDistributionResult.sellBudget r = Inf false.
Proof.
  destruct (calculateOverlappingDistribution_zero_bound (sqrt_digits 20) 18 6
              0 2200 2000 (1 # 10) 1000) as (r & Hr & _).
  - left. reflexivity.
  - exists r. split; [exact Hr|].
    assert (E : inr r =
                calculateOverlappingDistribution (sqrt_digits 20) 18 6
                  0 2200 2000 (1 # 10) 1000) by (symmetry; exact Hr).
    vm_compute in E. injection E as ->. reflexivity.
Defined.
